(** * quick-findr maintenance scripts: a shallow embedding

    The repository is a set of one-shot Python scripts.  Each one reads a
    file, transforms its text (or its JSON value) and writes it back.  The
    embedding below follows the scripts statement by statement:

    - a decoded text file is a list of Unicode code points ([text]);
    - [readlines], [split], [join], [strip], [count] model the [str] and
      file methods the scripts call;
    - a script is a function from the content it reads to an [outcome]:
      how the process ended and what, if anything, it wrote.

    The [print] calls are left out: they touch neither the file nor the way
    the process ends.  File contents are decoded text, as [read] returns it
    and [write] takes it. *)

From Stdlib Require Import String Ascii NArith ZArith Lia Bool List.
Import ListNotations.

Open Scope list_scope.

(** ** Text *)

(** A Python [str] is a sequence of code points. *)
Definition char := N.
Definition text := list char.

Definition chr (a : ascii) : char := N_of_ascii a.

(** [str "abc"] is the text of an ASCII literal. *)
Fixpoint str (s : string) : text :=
  match s with
  | EmptyString => []
  | String a s' => chr a :: str s'
  end.

Definition nl : char := 10%N.
Definition dquote : char := 34%N.

Definition eqc (a b : char) : bool := N.eqb a b.

Fixpoint text_eqb (a b : text) : bool :=
  match a, b with
  | [], [] => true
  | x :: a', y :: b' => eqc x y && text_eqb a' b'
  | _, _ => false
  end.

(** [s.count(c)] for a one-character needle. *)
Fixpoint count (c : char) (s : text) : nat :=
  match s with
  | [] => 0
  | x :: s' => (if eqc x c then 1 else 0) + count c s'
  end.

(** [str.isspace] on one code point: the characters CPython's
    [_PyUnicode_IsWhitespace] accepts. *)
Definition isspace (c : char) : bool :=
  ((9 <=? c) && (c <=? 13) || (28 <=? c) && (c <=? 32)
   || (c =? 133) || (c =? 160) || (c =? 5760)
   || (8192 <=? c) && (c <=? 8202)
   || (c =? 8232) || (c =? 8233) || (c =? 8239) || (c =? 8287)
   || (c =? 12288))%N.

Fixpoint lstrip (s : text) : text :=
  match s with
  | [] => []
  | c :: s' => if isspace c then lstrip s' else s
  end.

Definition rstrip (s : text) : text := rev (lstrip (rev s)).

(** [s.strip()] *)
Definition strip (s : text) : text := rstrip (lstrip s).

(** [f.readlines()]: the text cut after every newline, newlines kept. *)
Fixpoint readlines (s : text) : list text :=
  match s with
  | [] => []
  | c :: s' =>
      if eqc c nl then [c] :: readlines s'
      else match readlines s' with
           | [] => [[c]]
           | l :: ls => (c :: l) :: ls
           end
  end.

(** [f.writelines(lines)] writes the lines one after the other. *)
Definition writelines (lines : list text) : text := concat lines.

(** [s.split(sep)] for a one-character separator: never empty. *)
Fixpoint split (sep : char) (s : text) : list text :=
  match s with
  | [] => [[]]
  | c :: s' =>
      if eqc c sep then [] :: split sep s'
      else match split sep s' with
           | [] => [[c]]
           | l :: ls => (c :: l) :: ls
           end
  end.

(** [sep.join(lines)] *)
Fixpoint join (sep : text) (lines : list text) : text :=
  match lines with
  | [] => []
  | l :: rest =>
      match rest with
      | [] => l
      | _ :: _ => l ++ sep ++ join sep rest
      end
  end.

(** [t * n] *)
Definition times (t : text) (n : nat) : text := concat (repeat t n).

(** [lines.pop(j)] for [j] in range, keeping only the list. *)
Definition pop (j : nat) (lines : list text) : list text :=
  firstn j lines ++ skipn (S j) lines.

(** ** How a script ends *)

Inductive exn := KeyError | TypeError | AttributeError.

Inductive termination :=
| Finished                 (* control reached the end of the script *)
| Exited (code : Z)        (* the script called [exit(code)] *)
| Raised (e : exn).        (* an exception nobody caught *)

(** The status the process ends with: 0 at the end of the script, the
    argument of [exit], and the interpreter's 1 after an uncaught
    exception. *)
Definition exit_status (t : termination) : Z :=
  match t with
  | Finished => 0
  | Exited code => code
  | Raised _ => 1
  end.

Record outcome (F : Type) := Outcome {
  term : termination;
  written : option F       (* what the script wrote to its file, if it did *)
}.
Arguments Outcome {F} _ _.
Arguments term {F} _.
Arguments written {F} _.

(** The file after the script ran on a file holding [before]. *)
Definition file_after {F} (before : F) (o : outcome F) : F :=
  match written o with
  | Some w => w
  | None => before
  end.

(** Running a script on a file holding [before]: the file afterwards. *)
Definition run_on {F} (script : F -> outcome F) (before : F) : F :=
  file_after before (script before).

(** ** Brace fixers: shared policy *)

Definition lbrace : char := chr "{".
Definition rbrace : char := chr "}".

(** The sum over [lines] of [line.count('{') - line.count('}')]. *)
Fixpoint depth (lines : list text) : Z :=
  match lines with
  | [] => 0
  | l :: rest => (Z.of_nat (count lbrace l) - Z.of_nat (count rbrace l) + depth rest)%Z
  end.

(** [lines[j].strip() == '}'] *)
Definition is_lone (line : text) : bool := text_eqb (strip line) (str "}").

(** The inner loop [for j in range(len(lines) - 1, -1, -1)]: [n] is one more
    than the next index to look at. *)
Fixpoint pop_last_lone_from (n : nat) (lines : list text) : list text :=
  match n with
  | O => lines
  | S j =>
      if is_lone (nth j lines []) then pop j lines
      else pop_last_lone_from j lines
  end.

Definition pop_last_lone (lines : list text) : list text :=
  pop_last_lone_from (length lines) lines.

(** The outer loop [for _ in range(k)]. *)
Fixpoint remove_surplus (k : nat) (lines : list text) : list text :=
  match k with
  | O => lines
  | S k' => remove_surplus k' (pop_last_lone lines)
  end.

(** For the statements below: how many lines are a lone closing brace, and
    the lines that are not. *)
Definition lone_count (lines : list text) : nat :=
  length (filter is_lone lines).

Definition not_lone (lines : list text) : list text :=
  filter (fun l => negb (is_lone l)) lines.

(** ** analyze_and_fix.py *)

Module AnalyzeAndFix.

(** An entry of [errors]: the line number and the level the message
    prints. *)
Record error := Error { line_no : nat; level : Z }.

Record state := State { brace_level : Z; errors : list error }.

(** The body of the loop, for line number [i]. *)
Definition step (st : state) (i : nat) (line : text) : state :=
  let open_count := count lbrace line in
  let close_count := count rbrace line in
  let lvl := (brace_level st + (Z.of_nat open_count - Z.of_nat close_count))%Z in
  State lvl (if (lvl <? 0)%Z then errors st ++ [Error i lvl] else errors st).

(** [for i, line in enumerate(lines, i)] *)
Fixpoint loop (i : nat) (lines : list text) (st : state) : state :=
  match lines with
  | [] => st
  | line :: rest => loop (S i) rest (step st i line)
  end.

Definition analyze (lines : list text) : state :=
  loop 1 lines (State 0 []).

(** The [if brace_level < 0 ... else ...] correction of the line list. *)
Definition fix_lines (lvl : Z) (lines : list text) : list text :=
  if (lvl <? 0)%Z then remove_surplus (Z.to_nat (- lvl)) lines
  else lines ++ [times (str "}" ++ [nl]) (Z.to_nat lvl)].

Definition run (content : text) : outcome text :=
  let lines := readlines content in
  let lvl := brace_level (analyze lines) in
  if negb (lvl =? 0)%Z then
    Outcome Finished (Some (writelines (fix_lines lvl lines)))
  else
    Outcome Finished None.

(** For the statements below: the entries [errors] should hold after
    [lines], read with line numbers from [i] and a starting level [b]:
    one per line after which the running depth is negative, in order. *)
Definition negatives (i : nat) (b : Z) (lines : list text) : list error :=
  map (fun j => Error (i + j - 1) (b + depth (firstn j lines)))
      (filter (fun j => (b + depth (firstn j lines) <? 0)%Z)
              (seq 1 (length lines))).

End AnalyzeAndFix.

(** ** fix_complete.py *)

Module FixComplete.

Definition run (content : text) : outcome text :=
  let open_braces := count lbrace content in
  let close_braces := count rbrace content in
  let content' :=
    if open_braces <? close_braces then
      let diff := close_braces - open_braces in
      let lines := split nl content in
      join [nl] (remove_surplus diff lines)
    else if close_braces <? open_braces then
      let diff := open_braces - close_braces in
      content ++ [nl] ++ times (str "}" ++ [nl]) diff
    else content in
  Outcome Finished (Some content').

End FixComplete.

(** ** Replacement blocks *)

(** A line of a replacement block: indentation, ASCII content, newline. *)
Definition ln (indent : nat) (s : string) : text :=
  repeat (chr " ") indent ++ str s ++ [nl].

(** The same for a line holding quotes or characters outside ASCII. *)
Definition row (indent : nat) (parts : list text) : text :=
  repeat (chr " ") indent ++ concat parts ++ [nl].

(** What follows the last newline of a block. *)
Definition tail (indent : nat) (parts : list text) : text :=
  repeat (chr " ") indent ++ concat parts.

(** [needle in hay] and [hay.startswith(needle)] *)
Fixpoint startswith (hay needle : text) : bool :=
  match needle, hay with
  | [], _ => true
  | x :: needle', y :: hay' => eqc x y && startswith hay' needle'
  | _ :: _, [] => false
  end.

Fixpoint contains (needle hay : text) : bool :=
  startswith hay needle ||
  match hay with
  | [] => false
  | _ :: hay' => contains needle hay'
  end.

(** ** rebuild_favorites_section.py *)

Module RebuildFavoritesSection.

Definition marker : text := str "for fav in root.favorites : Rectangle {".

(** The first loop, looking at line [i], the head of [lines]. *)
Fixpoint find_start (i : nat) (lines : list text) : option nat :=
  match lines with
  | [] => None
  | line :: rest =>
      if contains marker line then Some i else find_start (S i) rest
  end.

(** The second loop, [for i in range(start_idx, len(lines))], looking at
    line [i], the head of [rest], with [brace_count] as it stands. *)
Fixpoint find_end (start_idx i : nat) (brace_count : Z) (rest : list text)
  : option nat :=
  match rest with
  | [] => None
  | line :: rest' =>
      let brace_count :=
        (brace_count + (Z.of_nat (count lbrace line) - Z.of_nat (count rbrace line)))%Z in
      if (brace_count =? 0)%Z && (start_idx <? i) then Some i
      else find_end start_idx (S i) brace_count rest'
  end.

(** [new_section], line by line. *)
Definition new_section : text := concat [
  ln 32 "for fav in root.favorites : Rectangle {";
  ln 36 "height: 36px;";
  ln 36 "background: fav-touch.has-hover ? (root.dark-mode ? #383838 : #f0f0f0) : transparent;";
  ln 36 "border-radius: 4px;";
  ln 36 "";
  ln 36 "HorizontalLayout {";
  ln 40 "padding-left: 8px;";
  ln 40 "padding-right: 8px;";
  ln 40 "spacing: 8px;";
  ln 40 "";
  ln 40 "Text {";
  row 44 [str "text: "; [dquote]; [11088%N]; [dquote]; str ";"];
  row 44 [str "font-family: "; [dquote]; str "Segoe UI Emoji"; [dquote]; str ";"];
  ln 44 "font-size: 14px;";
  ln 44 "vertical-alignment: center;";
  ln 40 "}";
  ln 40 "";
  ln 40 "VerticalLayout {";
  ln 44 "spacing: 2px;";
  ln 44 "horizontal-stretch: 1;";
  ln 44 "";
  ln 44 "Text {";
  ln 48 "text: fav.name;";
  ln 48 "color: root.dark-mode ? #ffffff : #111111;";
  ln 48 "font-size: 12px;";
  ln 48 "font-weight: 600;";
  ln 48 "overflow: elide;";
  ln 44 "}";
  ln 44 "";
  ln 44 "Text {";
  ln 48 "text: fav.path;";
  ln 48 "color: root.dark-mode ? #999999 : #666666;";
  ln 48 "font-size: 10px;";
  ln 48 "overflow: elide;";
  ln 44 "}";
  ln 40 "}";
  ln 40 "";
  ln 40 "Rectangle {";
  ln 44 "width: 24px;";
  ln 44 "height: 24px;";
  ln 44 "border-radius: 4px;";
  ln 44 "background: remove-touch.has-hover ? (root.dark-mode ? #ff4444 : #ffcccc) : transparent;";
  ln 44 "";
  ln 44 "Text {";
  row 48 [str "text: "; [dquote]; [128465%N]; [65039%N]; [dquote]; str ";"];
  row 48 [str "font-family: "; [dquote]; str "Segoe UI Emoji"; [dquote]; str ";"];
  ln 48 "font-size: 12px;";
  ln 48 "vertical-alignment: center;";
  ln 48 "horizontal-alignment: center;";
  ln 44 "}";
  ln 44 "";
  ln 44 "remove-touch := TouchArea {";
  ln 48 "mouse-cursor: pointer;";
  ln 48 "clicked => { ";
  ln 52 "root.remove-from-favorites(fav.path);";
  ln 48 "}";
  ln 44 "}";
  ln 40 "}";
  ln 36 "}";
  ln 36 "";
  ln 36 "fav-touch := TouchArea {";
  ln 40 "mouse-cursor: pointer;";
  ln 40 "clicked => { ";
  ln 44 "root.select-favorite(fav.path);";
  ln 44 "root.favorites-visible = false;";
  ln 40 "}";
  ln 36 "}";
  ln 32 "}"
].

Definition rebuild (lines : list text) : outcome text :=
  match find_start 0 lines with
  | None => Outcome (Exited 1) None
  | Some start_idx =>
      match find_end start_idx start_idx 0 (skipn start_idx lines) with
      | None => Outcome (Exited 1) None
      | Some end_idx =>
          let new_lines :=
            firstn start_idx lines ++ [new_section] ++ skipn (S end_idx) lines in
          Outcome Finished (Some (writelines new_lines))
      end
  end.

Definition run (content : text) : outcome text := rebuild (readlines content).

(** For the statements below: the running brace depth summed from line
    [s] to line [e], both included. *)
Definition depth_between (s e : nat) (lines : list text) : Z :=
  depth (firstn (S e - s) (skipn s lines)).

End RebuildFavoritesSection.

(** ** The fragment of [re] the scripts use *)

Module Re.

(** Patterns: the constructs the two scripts write.  Every quantifier in
    them is applied to a one-character class. *)
Inductive regex :=
| Lit (t : text)                  (* literal characters *)
| LazyStar (cls : char -> bool)   (* [c*?] *)
| GreedyPlus (cls : char -> bool) (* [c+] *)
| Cat (r1 r2 : regex)
| Group (n : nat) (r : regex)     (* the [n]th capturing group *)
| Lookahead (r : regex).          (* [(?=r)] *)

(** The classes: [.] under [re.DOTALL], [\s], and [[^}]]. *)
Definition any (c : char) : bool := true.
Definition space (c : char) : bool := isspace c.
Definition not_rbrace (c : char) : bool := negb (eqc c rbrace).

Definition groups := list (nat * text).

Fixpoint group (n : nat) (g : groups) : text :=
  match g with
  | [] => []
  | (m, t) :: g' => if (m =? n)%nat then t else group n g'
  end.

(** A match in progress hands the text still unread and the groups closed
    so far to what follows in the pattern. *)
Definition cont := text -> groups -> option (text * groups).

(** The text left after reading the literal [t], if [s] starts with it. *)
Fixpoint literal (t s : text) : option text :=
  match t, s with
  | [], _ => Some s
  | x :: t', y :: s' => if eqc x y then literal t' s' else None
  | _ :: _, [] => None
  end.

(** [c*?]: try what follows first, then one more character. *)
Fixpoint lazy_star (cls : char -> bool) (k : cont) (g : groups) (s : text)
  : option (text * groups) :=
  match k s g with
  | Some r => Some r
  | None =>
      match s with
      | [] => None
      | c :: s' => if cls c then lazy_star cls k g s' else None
      end
  end.

(** [c*]: as many characters as possible first, then give back. *)
Fixpoint greedy_star (cls : char -> bool) (k : cont) (g : groups) (s : text)
  : option (text * groups) :=
  match s with
  | [] => k s g
  | c :: s' =>
      if cls c then
        match greedy_star cls k g s' with
        | Some r => Some r
        | None => k s g
        end
      else k s g
  end.

(** The backtracking matcher. *)
Fixpoint run (r : regex) (s : text) (g : groups) (k : cont)
  : option (text * groups) :=
  match r with
  | Lit t =>
      match literal t s with
      | Some s' => k s' g
      | None => None
      end
  | LazyStar cls => lazy_star cls k g s
  | GreedyPlus cls =>
      match s with
      | [] => None
      | c :: s' => if cls c then greedy_star cls k g s' else None
      end
  | Cat r1 r2 => run r1 s g (fun s' g' => run r2 s' g' k)
  | Group n r1 =>
      run r1 s g
        (fun s' g' => k s' ((n, firstn (length s - length s') s) :: g'))
  | Lookahead r1 =>
      match run r1 s g (fun s' g' => Some (s', g')) with
      | Some (_, g') => k s g'
      | None => None
      end
  end.

(** A match starting at the head of [s]: the text after it, and its
    groups. *)
Definition match_here (r : regex) (s : text) : option (text * groups) :=
  run r s [] (fun s' g => Some (s', g)).

(** [re.search]: the leftmost position with a match, as the text from
    there on. *)
Fixpoint search (r : regex) (s : text) : option (text * (text * groups)) :=
  match match_here r s with
  | Some m => Some (s, m)
  | None =>
      match s with
      | [] => None
      | _ :: s' => search r s'
      end
  end.

(** [re.sub(r, repl, s)]: [skip] counts the characters of the last match
    still to step over.  A match is replaced by [repl] of its groups, and
    the scan resumes where the match ended; an empty match is followed by
    the character it stands before.  (The two patterns of this repository
    start with a literal and never match the empty text.) *)
Fixpoint sub_from (r : regex) (repl : groups -> text) (skip : nat) (s : text)
  : text :=
  match skip with
  | S skip' =>
      match s with
      | [] => []
      | _ :: s' => sub_from r repl skip' s'
      end
  | O =>
      match match_here r s with
      | Some (rest, g) =>
          repl g ++
          match s with
          | [] => []
          | c :: s' =>
              match length s - length rest with
              | O => c :: sub_from r repl 0 s'
              | S n => sub_from r repl n s'
              end
          end
      | None =>
          match s with
          | [] => []
          | c :: s' => c :: sub_from r repl 0 s'
          end
      end
  end.

Definition sub (r : regex) (repl : groups -> text) (s : text) : text :=
  sub_from r repl 0 s.

(** For the statements below: what follows in a pattern leaves at least
    [d] characters of its input behind it. *)
Definition bounded (d : nat) (k : cont) : Prop :=
  forall s g rest g', k s g = Some (rest, g') -> length rest + d <= length s.

(** For the statements below: patterns that read at least one character
    whenever they match. *)
Fixpoint consumes (r : regex) : bool :=
  match r with
  | Lit t => negb (text_eqb t [])
  | LazyStar _ => false
  | GreedyPlus _ => true
  | Cat r1 r2 => consumes r1 || consumes r2
  | Group _ r1 => consumes r1
  | Lookahead _ => false
  end.

End Re.

(** ** fix_favorites.py *)

Module FixFavorites.
Import Re.

(** [(for fav in root\.favorites : Rectangle \{[^}]*?\n\s+HorizontalLayout \{)(.*?)(\n\s+\}\n\s+\})] *)
Definition pattern : regex :=
  Cat (Group 1
         (Cat (Lit (str "for fav in root.favorites : Rectangle {"))
         (Cat (LazyStar not_rbrace)
         (Cat (Lit [nl])
         (Cat (GreedyPlus space)
              (Lit (str "HorizontalLayout {")))))))
 (Cat (Group 2 (LazyStar any))
      (Group 3
         (Cat (Lit [nl])
         (Cat (GreedyPlus space)
         (Cat (Lit (str "}"))
         (Cat (Lit [nl])
         (Cat (GreedyPlus space)
              (Lit (str "}"))))))))).

(** The text of [replacement] between its two group references. *)
Definition replacement_body : text := concat [
  ln 0 "";
  ln 40 "padding-left: 8px;";
  ln 40 "padding-right: 8px;";
  ln 40 "spacing: 8px;";
  ln 40 "";
  ln 40 "Text {";
  row 44 [str "text: "; [dquote]; [11088%N]; [dquote]; str ";"];
  row 44 [str "font-family: "; [dquote]; str "Segoe UI Emoji"; [dquote]; str ";"];
  ln 44 "font-size: 14px;";
  ln 44 "vertical-alignment: center;";
  ln 40 "}";
  ln 40 "";
  ln 40 "VerticalLayout {";
  ln 44 "spacing: 2px;";
  ln 44 "horizontal-stretch: 1;";
  ln 44 "";
  ln 44 "Text {";
  ln 48 "text: fav.name;";
  ln 48 "color: root.dark-mode ? #ffffff : #111111;";
  ln 48 "font-size: 12px;";
  ln 48 "font-weight: 600;";
  ln 48 "overflow: elide;";
  ln 44 "}";
  ln 44 "";
  ln 44 "Text {";
  ln 48 "text: fav.path;";
  ln 48 "color: root.dark-mode ? #999999 : #666666;";
  ln 48 "font-size: 10px;";
  ln 48 "overflow: elide;";
  ln 44 "}";
  ln 40 "}";
  ln 40 "";
  ln 40 "Rectangle {";
  ln 44 "width: 24px;";
  ln 44 "height: 24px;";
  ln 44 "border-radius: 4px;";
  ln 44 "background: remove-touch.has-hover ? (root.dark-mode ? #ff4444 : #ffcccc) : transparent;";
  ln 44 "";
  ln 44 "Text {";
  row 48 [str "text: "; [dquote]; [128465%N]; [65039%N]; [dquote]; str ";"];
  row 48 [str "font-family: "; [dquote]; str "Segoe UI Emoji"; [dquote]; str ";"];
  ln 48 "font-size: 12px;";
  ln 48 "vertical-alignment: center;";
  ln 48 "horizontal-alignment: center;";
  ln 44 "}";
  ln 44 "";
  ln 44 "remove-touch := TouchArea {";
  ln 48 "mouse-cursor: pointer;";
  ln 48 "clicked => { ";
  ln 52 "root.remove-from-favorites(fav.path);";
  ln 48 "}";
  ln 44 "}";
  ln 40 "}";
  ln 36 "}";
  ln 36 "";
  ln 36 "fav-touch := TouchArea {";
  ln 40 "mouse-cursor: pointer;";
  ln 40 "clicked => { ";
  ln 44 "root.select-favorite(fav.path);";
  ln 44 "root.favorites-visible = false;";
  ln 40 "}";
  tail 36 [str "}"]
].

(** The template: group 1, the new body, group 3. *)
Definition replacement (g : groups) : text :=
  group 1 g ++ replacement_body ++ group 3 g.

Definition run (content : text) : outcome text :=
  let content_fixed := sub pattern replacement content in
  Outcome Finished (Some content_fixed).

End FixFavorites.

(** ** fix_final.py *)

Module FixFinal.
Import Re.

(** [for fav in root\.favorites : Rectangle \{.*?(?=\n\s+\}\s+\n\s+// Séparateur)] *)
Definition pattern : regex :=
  Cat (Lit (str "for fav in root.favorites : Rectangle {"))
 (Cat (LazyStar any)
      (Lookahead
         (Cat (Lit [nl])
         (Cat (GreedyPlus space)
         (Cat (Lit (str "}"))
         (Cat (GreedyPlus space)
         (Cat (Lit [nl])
         (Cat (GreedyPlus space)
              (Lit (str "// S" ++ [233%N] ++ str "parateur")))))))))).

(** [new_favorites_section], line by line. *)
Definition new_favorites_section : text := concat [
  ln 0 "for fav in root.favorites : Rectangle {";
  ln 36 "height: 36px;";
  ln 36 "background: fav-touch.has-hover ? (root.dark-mode ? #383838 : #f0f0f0) : transparent;";
  ln 36 "border-radius: 4px;";
  ln 36 "";
  ln 36 "HorizontalLayout {";
  ln 40 "padding-left: 8px;";
  ln 40 "padding-right: 8px;";
  ln 40 "spacing: 8px;";
  ln 40 "";
  ln 40 "Text {";
  row 44 [str "text: "; [dquote]; [11088%N]; [dquote]; str ";"];
  row 44 [str "font-family: "; [dquote]; str "Segoe UI Emoji"; [dquote]; str ";"];
  ln 44 "font-size: 14px;";
  ln 44 "vertical-alignment: center;";
  ln 40 "}";
  ln 40 "";
  ln 40 "VerticalLayout {";
  ln 44 "spacing: 2px;";
  ln 44 "horizontal-stretch: 1;";
  ln 44 "";
  ln 44 "Text {";
  ln 48 "text: fav.name;";
  ln 48 "color: root.dark-mode ? #ffffff : #111111;";
  ln 48 "font-size: 12px;";
  ln 48 "font-weight: 600;";
  ln 48 "overflow: elide;";
  ln 44 "}";
  ln 44 "";
  ln 44 "Text {";
  ln 48 "text: fav.path;";
  ln 48 "color: root.dark-mode ? #999999 : #666666;";
  ln 48 "font-size: 10px;";
  ln 48 "overflow: elide;";
  ln 44 "}";
  ln 40 "}";
  ln 40 "";
  ln 40 "Rectangle {";
  ln 44 "width: 24px;";
  ln 44 "height: 24px;";
  ln 44 "border-radius: 4px;";
  ln 44 "background: remove-touch.has-hover ? (root.dark-mode ? #ff4444 : #ffcccc) : transparent;";
  ln 44 "";
  ln 44 "Text {";
  row 48 [str "text: "; [dquote]; [128465%N]; [65039%N]; [dquote]; str ";"];
  row 48 [str "font-family: "; [dquote]; str "Segoe UI Emoji"; [dquote]; str ";"];
  ln 48 "font-size: 12px;";
  ln 48 "vertical-alignment: center;";
  ln 48 "horizontal-alignment: center;";
  ln 44 "}";
  ln 44 "";
  ln 44 "remove-touch := TouchArea {";
  ln 48 "mouse-cursor: pointer;";
  ln 48 "clicked => { ";
  ln 52 "root.remove-from-favorites(fav.path);";
  ln 48 "}";
  ln 44 "}";
  ln 40 "}";
  ln 36 "}";
  ln 36 "";
  ln 36 "fav-touch := TouchArea {";
  ln 40 "mouse-cursor: pointer;";
  ln 40 "clicked => { ";
  ln 44 "root.select-favorite(fav.path);";
  ln 44 "root.favorites-visible = false;";
  ln 40 "}";
  ln 36 "}";
  ln 32 "}";
  tail 28 []
].

Definition run (content : text) : outcome text :=
  let content_fixed := sub pattern (fun _ => new_favorites_section) content in
  Outcome Finished (Some content_fixed).

End FixFinal.

(** ** clean_recent.py *)

Module CleanRecent.

Set Warnings "-register-all".

(** What [json.load] returns.  A [dict] keeps its keys in insertion
    order, so it is an association list. *)
Inductive json :=
| JNull
| JBool (b : bool)
| JInt (z : Z)
| JFloat (literal : text)
| JStr (s : text)
| JList (items : list json)
| JDict (fields : list (text * json)).

Definition dict := list (text * json).

(** The result of an expression that may raise. *)
Definition result (A : Type) := sum exn A.
Definition ret {A} (a : A) : result A := inr a.
Definition raise {A} (e : exn) : result A := inl e.
Definition bind {A B} (x : result A) (f : A -> result B) : result B :=
  match x with
  | inl e => inl e
  | inr a => f a
  end.

Notation "x <- e ;; k" := (bind e (fun x => k))
  (at level 61, e at next level, right associativity).

Fixpoint lookup (key : text) (d : dict) : option json :=
  match d with
  | [] => None
  | (k, v) :: d' => if text_eqb k key then Some v else lookup key d'
  end.

(** [d[key] = v]: an existing key keeps its place, a new one goes last. *)
Fixpoint store (key : text) (v : json) (d : dict) : dict :=
  match d with
  | [] => [(key, v)]
  | (k, x) :: d' =>
      if text_eqb k key then (k, v) :: d' else (k, x) :: store key v d'
  end.

(** [v[key]] for a [str] key. *)
Definition getitem (v : json) (key : text) : result json :=
  match v with
  | JDict d =>
      match lookup key d with
      | Some x => ret x
      | None => raise KeyError
      end
  | _ => raise TypeError
  end.

(** [len(v)] *)
Definition len (v : json) : result nat :=
  match v with
  | JStr s => ret (length s)
  | JList l => ret (length l)
  | JDict d => ret (length d)
  | _ => raise TypeError
  end.

(** What [for folder in v] goes through. *)
Definition iter (v : json) : result (list json) :=
  match v with
  | JStr s => ret (map (fun c => JStr [c]) s)
  | JList l => ret l
  | JDict d => ret (map (fun kv => JStr (fst kv)) d)
  | _ => raise TypeError
  end.

Definition prefix : text := str "/test/path".
Definition recent_folders : text := str "recent_folders".
Definition path : text := str "path".

(** [not folder['path'].startswith('/test/path')] *)
Definition keeps (folder : json) : result bool :=
  p <- getitem folder path ;;
  match p with
  | JStr s => ret (negb (startswith s prefix))
  | _ => raise AttributeError
  end.

(** The list comprehension. *)
Fixpoint comprehension (folders : list json) : result (list json) :=
  match folders with
  | [] => ret []
  | folder :: rest =>
      b <- keeps folder ;;
      kept <- comprehension rest ;;
      ret (if b : bool then folder :: kept else kept)
  end.

(** The script up to its write: the new [data], or the exception. *)
Definition clean (data : json) : result json :=
  old <- getitem data recent_folders ;;
  original_count <- len old ;;
  folders <- iter old ;;
  kept <- comprehension folders ;;
  match data with
  | JDict d => ret (JDict (store recent_folders (JList kept) d))
  | _ => raise TypeError
  end.

Definition run (data : json) : outcome json :=
  match clean data with
  | inr data' => Outcome Finished (Some data')
  | inl e => Outcome (Raised e) None
  end.

(** The entries of [data['recent_folders']] after a run, to count them. *)
Definition recent_of (data : json) : list json :=
  match getitem data recent_folders with
  | inr (JList l) => l
  | _ => []
  end.

(** For the statements below: a record whose [path] attribute is a string,
    and whether that path starts with the blocklist prefix. *)
Definition has_path (folder : json) : Prop :=
  exists fields p, folder = JDict fields /\ lookup path fields = Some (JStr p).

Definition blocked (folder : json) : bool :=
  match folder with
  | JDict fields =>
      match lookup path fields with
      | Some (JStr p) => startswith p prefix
      | _ => false
      end
  | _ => false
  end.

End CleanRecent.

(** ** Vocabulary of the further properties *)

(** A line with its newline: no other newline in it. *)
Definition complete (l : text) : Prop :=
  exists body, l = body ++ [nl] /\ count nl body = 0.

(** A line list as [readlines] cuts it: complete lines, then possibly a last
    line that is not empty and has no newline. *)
Inductive well_cut : list text -> Prop :=
| well_cut_nil : well_cut []
| well_cut_last (l : text) : l <> [] -> count nl l = 0 -> well_cut [l]
| well_cut_cons (l : text) (ls : list text) :
    complete l -> well_cut ls -> well_cut (l :: ls).

(** Only whitespace. *)
Definition blank (s : text) : Prop := Forall (fun c => isspace c = true) s.

(** The closing lines the fixers append: [n] times a brace and a newline. *)
Definition closing (n : nat) : text := times (str "}" ++ [nl]) n.

(** What the second run of the rebuilder relies on, for the lines [ns] of
    the block: 68 of them, the marker on the first, and a brace count that
    first returns to zero on the last. *)
Definition block_lines_ok (ns : list text) : bool :=
  (length ns =? 68)
  && contains RebuildFavoritesSection.marker (nth 0 ns [])
  && (depth ns =? 0)%Z
  && forallb (fun j => negb (depth (firstn (S j) ns) =? 0)%Z) (seq 0 67).

(** The exception the pruner's condition raises on an entry that is not a
    record with a string [path]. *)
Definition entry_error (folder : CleanRecent.json) : exn :=
  match folder with
  | CleanRecent.JDict fields =>
      match CleanRecent.lookup CleanRecent.path fields with
      | None => KeyError
      | Some _ => AttributeError
      end
  | _ => TypeError
  end.

(** The two failure modes of the brace-depth-based rebuilder, in the terms
    of the lines it read: no line holds the start marker; or the brace depth
    summed from the first line that holds it is never back to zero on a
    later line. *)
Definition no_marker_line (lines : list text) : Prop :=
  forall l, In l lines -> contains RebuildFavoritesSection.marker l = false.

Definition section_never_closes (lines : list text) : Prop :=
  exists s, s < length lines
    /\ contains RebuildFavoritesSection.marker (nth s lines []) = true
    /\ (forall j, j < s ->
          contains RebuildFavoritesSection.marker (nth j lines []) = false)
    /\ forall e, s < e < length lines ->
          RebuildFavoritesSection.depth_between s e lines <> 0%Z.

(** Patterns without a capturing group. *)
Fixpoint plain (r : Re.regex) : bool :=
  match r with
  | Re.Lit _ | Re.LazyStar _ | Re.GreedyPlus _ => true
  | Re.Cat r1 r2 => plain r1 && plain r2
  | Re.Group _ _ => false
  | Re.Lookahead r1 => plain r1
  end.

(** * Properties *)

(** ** The scripts on small inputs *)

Example readlines_keeps_newlines :
  readlines (str "ab" ++ [nl] ++ [nl] ++ str "c")
  = [str "ab" ++ [nl]; [nl]; str "c"].
Proof. reflexivity. Qed.

Example split_drops_newlines :
  split nl (str "ab" ++ [nl] ++ [nl] ++ str "c" ++ [nl])
  = [str "ab"; []; str "c"; []].
Proof. reflexivity. Qed.

Example strip_lone_brace :
  is_lone ([9%N] ++ str "  }  " ++ [nl]) = true
  /\ is_lone (str "} }" ++ [nl]) = false.
Proof. split; reflexivity. Qed.

Example analyze_appends_missing_braces :
  AnalyzeAndFix.run (str "a {" ++ [nl] ++ str "b {" ++ [nl])
  = Outcome Finished
      (Some (str "a {" ++ [nl] ++ str "b {" ++ [nl]
             ++ str "}" ++ [nl] ++ str "}" ++ [nl])).
Proof. reflexivity. Qed.

Example fix_complete_removes_last_lone_brace :
  FixComplete.run (str "{" ++ [nl] ++ str "}" ++ [nl] ++ str "x" ++ [nl] ++ str " }")
  = Outcome Finished (Some (str "{" ++ [nl] ++ str "}" ++ [nl] ++ str "x")).
Proof. reflexivity. Qed.

Example fix_final_replaces_up_to_the_comment :
  let before := str "a" ++ [nl] ++ str "  " in
  let after := [nl] ++ str "  }" ++ [nl] ++ [nl] ++ str "  // S" ++ [233%N]
               ++ str "parateur" ++ [nl] in
  FixFinal.run (before ++ str "for fav in root.favorites : Rectangle { old }" ++ after)
  = Outcome Finished (Some (before ++ FixFinal.new_favorites_section ++ after)).
Proof. vm_compute. reflexivity. Qed.

Example fix_favorites_keeps_groups_1_and_3 :
  let head := str "for fav in root.favorites : Rectangle {" ++ [nl]
              ++ str "  HorizontalLayout {" in
  let close := [nl] ++ str "  }" ++ [nl] ++ str " }" in
  FixFavorites.run (str "x " ++ head ++ str " old " ++ close ++ str " y")
  = Outcome Finished
      (Some (str "x " ++ head ++ FixFavorites.replacement_body ++ close ++ str " y")).
Proof. vm_compute. reflexivity. Qed.

Example clean_recent_raises :
  CleanRecent.run (CleanRecent.JList []) = Outcome (Raised TypeError) None
  /\ CleanRecent.run (CleanRecent.JDict []) = Outcome (Raised KeyError) None
  /\ CleanRecent.run
       (CleanRecent.JDict
          [(CleanRecent.recent_folders,
            CleanRecent.JList
              [CleanRecent.JDict [(CleanRecent.path, CleanRecent.JInt 3)]])])
     = Outcome (Raised AttributeError) None.
Proof. repeat split. Qed.

(** ** Text lemmas *)

Section TextFacts.

Lemma eqc_eq (a b : char) : eqc a b = true <-> a = b.
Proof. unfold eqc. apply N.eqb_eq. Qed.

Lemma text_eqb_eq (a b : text) : text_eqb a b = true <-> a = b.
Proof.
  revert b. induction a as [|x a IH]; intros [|y b]; simpl; try (split; congruence).
  rewrite andb_true_iff, eqc_eq, IH. split.
  - intros [-> ->]. reflexivity.
  - intros H. inversion H. auto.
Qed.

Lemma text_eqb_refl (a : text) : text_eqb a a = true.
Proof. apply text_eqb_eq. reflexivity. Qed.

Lemma count_app (c : char) (s t : text) :
  count c (s ++ t) = count c s + count c t.
Proof. induction s as [|x s IH]; simpl; [reflexivity | rewrite IH; lia]. Qed.

Lemma count_rev (c : char) (s : text) : count c (rev s) = count c s.
Proof.
  induction s as [|x s IH]; simpl; [reflexivity|].
  rewrite count_app, IH. simpl. lia.
Qed.

Lemma count_times (c : char) (t : text) (n : nat) :
  count c (times t n) = n * count c t.
Proof.
  unfold times. induction n as [|n IH]; simpl; [reflexivity|].
  rewrite count_app, IH. reflexivity.
Qed.

(** Stripping only removes whitespace, so it keeps every other count. *)
Lemma count_lstrip (c : char) (s : text) :
  isspace c = false -> count c (lstrip s) = count c s.
Proof.
  intros Hc. induction s as [|x s IH]; simpl; [reflexivity|].
  destruct (isspace x) eqn:Hx; simpl; [|reflexivity].
  rewrite IH. destruct (eqc x c) eqn:E; [|reflexivity].
  apply eqc_eq in E. congruence.
Qed.

Lemma count_strip (c : char) (s : text) :
  isspace c = false -> count c (strip s) = count c s.
Proof.
  intros Hc. unfold strip, rstrip.
  rewrite count_rev, count_lstrip, count_rev, count_lstrip by assumption.
  reflexivity.
Qed.

Lemma concat_readlines (s : text) : concat (readlines s) = s.
Proof.
  induction s as [|c s IH]; simpl; [reflexivity|].
  destruct (eqc c nl); simpl; [now rewrite IH|].
  destruct (readlines s) as [|l ls]; simpl in *; now rewrite <- IH.
Qed.

Lemma split_not_nil (sep : char) (s : text) : split sep s <> [].
Proof.
  induction s as [|c s IH]; simpl; [discriminate|].
  destruct (eqc c sep); [discriminate|].
  destruct (split sep s); discriminate.
Qed.

Lemma join_cons (sep l : text) (ls : list text) :
  ls <> [] -> join sep (l :: ls) = l ++ sep ++ join sep ls.
Proof. destruct ls; [congruence | reflexivity]. Qed.

Lemma join_split (sep : char) (s : text) : join [sep] (split sep s) = s.
Proof.
  induction s as [|c s IH]; simpl; [reflexivity|].
  destruct (eqc c sep) eqn:E.
  - apply eqc_eq in E. subst c.
    pose proof (split_not_nil sep s) as Hn.
    destruct (split sep s) as [|l ls]; [congruence|].
    simpl in *. now rewrite IH.
  - pose proof (split_not_nil sep s) as Hn.
    destruct (split sep s) as [|l ls]; [congruence|].
    destruct ls as [|l' ls]; simpl in *; now rewrite <- IH.
Qed.

(** Counting a character other than the separator through [join]. *)
Lemma count_join (c sep : char) (ls : list text) :
  eqc sep c = false -> count c (join [sep] ls) = count c (concat ls).
Proof.
  intros Hc. induction ls as [|l ls IH]; [reflexivity|].
  destruct ls as [|l' ls].
  - simpl. now rewrite app_nil_r.
  - rewrite join_cons by discriminate.
    change (concat (l :: l' :: ls)) with (l ++ concat (l' :: ls)).
    rewrite !count_app, IH. simpl. rewrite Hc. lia.
Qed.

(** The depth of a line list is the brace balance of the text it makes. *)
Lemma depth_concat (lines : list text) :
  depth lines =
  (Z.of_nat (count lbrace (concat lines)) - Z.of_nat (count rbrace (concat lines)))%Z.
Proof.
  induction lines as [|l ls IH]; simpl; [reflexivity|].
  rewrite !count_app, IH. lia.
Qed.

End TextFacts.

(** ** The auditor's loop *)

Section Auditor.
Import AnalyzeAndFix.

Lemma filter_map_S (f : nat -> bool) (l : list nat) :
  filter f (map S l) = map S (filter (fun j => f (S j)) l).
Proof.
  induction l as [|x l IH]; simpl; [reflexivity|].
  rewrite IH. destruct (f (S x)); reflexivity.
Qed.

Lemma negatives_cons (i : nat) (b : Z) (l : text) (rest : list text) :
  let b' := (b + (Z.of_nat (count lbrace l) - Z.of_nat (count rbrace l)))%Z in
  negatives i b (l :: rest) =
  (if (b' <? 0)%Z then [Error i b'] else []) ++ negatives (S i) b' rest.
Proof.
  intros b'. unfold negatives.
  change (length (l :: rest)) with (S (length rest)).
  rewrite <- cons_seq, <- seq_shift.
  cbn [filter]. rewrite filter_map_S.
  assert (E1 : (b + depth (firstn 1 (l :: rest)) = b')%Z).
  { simpl. unfold b'. lia. }
  rewrite E1.
  assert (Ef : forall j, (b + depth (firstn (S j) (l :: rest)) = b' + depth (firstn j rest))%Z).
  { intros j. simpl. unfold b'. lia. }
  assert (Em :
    map (fun j => Error (i + S j - 1) (b + depth (firstn (S j) (l :: rest))))
        (filter (fun j => (b + depth (firstn (S j) (l :: rest)) <? 0)%Z)
                (seq 1 (length rest))) =
    map (fun j => Error (S i + j - 1) (b' + depth (firstn j rest)))
        (filter (fun j => (b' + depth (firstn j rest) <? 0)%Z)
                (seq 1 (length rest)))).
  { rewrite (filter_ext _ (fun j => (b' + depth (firstn j rest) <? 0)%Z))
      by (intros j; now rewrite Ef).
    apply map_ext. intros j. rewrite Ef. f_equal. lia. }
  destruct (b' <? 0)%Z; cbn [map app]; rewrite map_map.
  - f_equal; [f_equal; [lia | exact E1] | exact Em].
  - exact Em.
Qed.

Lemma loop_spec (lines : list text) : forall (i : nat) (st : state),
  loop i lines st =
  State (brace_level st + depth lines)
        (errors st ++ negatives i (brace_level st) lines).
Proof.
  induction lines as [|l rest IH]; intros i st.
  - simpl. unfold negatives. simpl. rewrite app_nil_r, Z.add_0_r.
    destruct st; reflexivity.
  - cbn [loop]. rewrite IH, negatives_cons. unfold step. cbn [brace_level errors depth].
    f_equal; [lia|].
    destruct (_ <? 0)%Z; rewrite <- ?app_assoc; simpl; now rewrite ?app_nil_r.
Qed.

Lemma analyze_level (lines : list text) :
  brace_level (analyze lines) = depth lines.
Proof. unfold analyze. rewrite loop_spec. reflexivity. Qed.

Lemma analyze_errors (lines : list text) :
  errors (analyze lines) = negatives 1 0 lines.
Proof. unfold analyze. rewrite loop_spec. reflexivity. Qed.

End Auditor.

(** C8.  The line-by-line auditor records an error for a line exactly when
    the running nesting depth after that line is negative: [errors] holds,
    in file order, one entry for each line number [i] with a negative depth
    after the first [i] lines, with that depth as its level; so line [i] has
    an entry if and only if it is a line of the file and the depth after it
    is negative (the first such line, and every later line for which the
    depth is still negative). *)
Theorem auditor_errors_exactly_negative_depth (lines : list text) :
  let errs := AnalyzeAndFix.errors (AnalyzeAndFix.analyze lines) in
  errs =
    map (fun i => AnalyzeAndFix.Error i (depth (firstn i lines)))
        (filter (fun i => (depth (firstn i lines) <? 0)%Z) (seq 1 (length lines)))
  /\ forall i : nat,
       (exists e, In e errs /\ AnalyzeAndFix.line_no e = i) <->
       (1 <= i <= length lines /\ (depth (firstn i lines) < 0)%Z).
Proof.
  intros errs.
  assert (E : errs =
    map (fun i => AnalyzeAndFix.Error i (depth (firstn i lines)))
        (filter (fun i => (depth (firstn i lines) <? 0)%Z) (seq 1 (length lines)))).
  { unfold errs. rewrite analyze_errors. unfold AnalyzeAndFix.negatives.
    rewrite (filter_ext _ (fun i => (depth (firstn i lines) <? 0)%Z))
      by (intros j; reflexivity).
    apply map_ext. intros j. f_equal. lia. }
  split; [exact E|].
  intros i. rewrite E. split.
  - intros (e & Hin & Hno).
    apply in_map_iff in Hin. destruct Hin as (j & <- & Hj).
    apply filter_In in Hj. destruct Hj as [Hseq Hneg].
    apply in_seq in Hseq. simpl in Hno. subst j.
    split; [lia | now apply Z.ltb_lt].
  - intros [Hi Hneg].
    exists (AnalyzeAndFix.Error i (depth (firstn i lines))). split; [|reflexivity].
    apply in_map_iff. exists i. split; [reflexivity|].
    apply filter_In. split; [apply in_seq; lia | now apply Z.ltb_lt].
Qed.

(** ** Removing surplus closing braces *)

Section RemoveSurplus.

Lemma isspace_lbrace : isspace lbrace = false.
Proof. reflexivity. Qed.

Lemma isspace_rbrace : isspace rbrace = false.
Proof. reflexivity. Qed.

(** A lone closing brace line holds one ['}'] and no ['{']. *)
Lemma is_lone_counts (l : text) :
  is_lone l = true -> count lbrace l = 0 /\ count rbrace l = 1.
Proof.
  unfold is_lone. intros H. apply text_eqb_eq in H.
  rewrite <- (count_strip lbrace l isspace_lbrace).
  rewrite <- (count_strip rbrace l isspace_rbrace).
  rewrite H. split; reflexivity.
Qed.

Lemma is_lone_strip (l : text) : is_lone l = true <-> strip l = str "}".
Proof. unfold is_lone. apply text_eqb_eq. Qed.

Lemma lone_count_app (a b : list text) :
  lone_count (a ++ b) = lone_count a + lone_count b.
Proof. unfold lone_count. now rewrite filter_app, length_app. Qed.

Lemma not_lone_app (a b : list text) :
  not_lone (a ++ b) = not_lone a ++ not_lone b.
Proof. unfold not_lone. apply filter_app. Qed.

Lemma lone_count_0_not_lone (l : list text) :
  lone_count l = 0 -> not_lone l = l.
Proof.
  unfold lone_count, not_lone. induction l as [|y l IH]; simpl; [reflexivity|].
  destruct (is_lone y); simpl; [discriminate|]. intros H. now rewrite IH.
Qed.

(** The inner loop either finds no lone brace among the first [n] lines
    and changes nothing, or removes the last one of them. *)
Lemma pop_last_lone_from_spec (lines : list text) : forall n,
  n <= length lines ->
  (lone_count (firstn n lines) = 0 /\ pop_last_lone_from n lines = lines)
  \/ exists pre l mid,
       firstn n lines = pre ++ l :: mid /\ is_lone l = true /\
       lone_count mid = 0 /\
       pop_last_lone_from n lines = pre ++ mid ++ skipn n lines.
Proof.
  induction n as [|j IH]; intros Hn.
  - left. split; reflexivity.
  - assert (Hj : j < length lines) by lia.
    assert (Hsplit : firstn (S j) lines = firstn j lines ++ [nth j lines []]).
    { clear IH Hn. revert j Hj.
      induction lines as [|x xs IHl]; intros j Hj; simpl in Hj; [lia|].
      destruct j as [|j]; [reflexivity|].
      cbn [firstn nth app]. change ((x :: firstn j xs) ++ [nth j xs []])
        with (x :: (firstn j xs ++ [nth j xs []])).
      rewrite <- IHl by lia. reflexivity. }
    assert (Hskip : skipn j lines = nth j lines [] :: skipn (S j) lines).
    { clear IH Hn Hsplit. revert j Hj.
      induction lines as [|x xs IHl]; intros j Hj; simpl in Hj; [lia|].
      destruct j as [|j]; [reflexivity|].
      cbn [skipn nth]. apply IHl. lia. }
    cbn [pop_last_lone_from].
    destruct (is_lone (nth j lines [])) eqn:E.
    + right. exists (firstn j lines), (nth j lines []), [].
      repeat split; auto.
    + destruct (IH ltac:(lia)) as [[H0 Hsame] | (pre & l & mid & Hf & Hl & Hmid & Hres)].
      * left. split; [|exact Hsame].
        rewrite Hsplit, lone_count_app, H0. unfold lone_count. simpl. now rewrite E.
      * right. exists pre, l, (mid ++ [nth j lines []]).
        repeat split; auto.
        -- rewrite Hsplit, Hf, <- app_assoc. reflexivity.
        -- rewrite lone_count_app, Hmid. unfold lone_count. simpl. now rewrite E.
        -- rewrite Hres, Hskip, <- !app_assoc. reflexivity.
Qed.

Lemma pop_last_lone_spec (lines : list text) :
  (lone_count lines = 0 /\ pop_last_lone lines = lines)
  \/ exists pre l suf,
       lines = pre ++ l :: suf /\ is_lone l = true /\ lone_count suf = 0 /\
       pop_last_lone lines = pre ++ suf.
Proof.
  unfold pop_last_lone.
  destruct (pop_last_lone_from_spec lines (length lines) (le_n _))
    as [[H0 Hs] | (pre & l & mid & Hf & Hl & Hmid & Hres)].
  - left. now rewrite firstn_all in H0.
  - right. exists pre, l, mid. rewrite firstn_all in Hf.
    rewrite skipn_all, app_nil_r in Hres. auto.
Qed.

(** The outer loop removes the lone brace lines of a suffix of the file
    that holds [min k (lone_count lines)] of them, and nothing else. *)
Lemma remove_surplus_spec (k : nat) : forall lines : list text,
  exists pre suf,
    lines = pre ++ suf /\
    lone_count suf = Nat.min k (lone_count lines) /\
    remove_surplus k lines = pre ++ not_lone suf.
Proof.
  induction k as [|k IH]; intros lines.
  - exists lines, []. rewrite app_nil_r. repeat split.
    simpl. now rewrite app_nil_r.
  - cbn [remove_surplus].
    destruct (pop_last_lone_spec lines)
      as [[H0 Hs] | (p & l & s & Hlines & Hl & Hs0 & Hres)].
    + rewrite Hs. destruct (IH lines) as (pre & suf & E & Hc & Hr).
      exists pre, suf. repeat split; auto. rewrite Hc, H0. lia.
    + rewrite Hres. destruct (IH (p ++ s)) as (pre & suf & E & Hc & Hr).
      rewrite lone_count_app, Hs0, Nat.add_0_r in Hc.
      assert (Hl1 : lone_count [l] = 1) by (unfold lone_count; simpl; now rewrite Hl).
      assert (Hln : not_lone [l] = []) by (unfold not_lone; simpl; now rewrite Hl).
      assert (Htot : lone_count lines = S (lone_count p)).
      { rewrite Hlines. change (l :: s) with ([l] ++ s).
        rewrite !lone_count_app, Hl1, Hs0. lia. }
      apply app_eq_app in E. destruct E as (m & [[Hp Hsuf] | [Hpre Hss]]).
      * (* the cut falls inside [p] *)
        exists pre, (m ++ l :: s). subst p suf.
        split; [now rewrite Hlines, <- app_assoc|]. split.
        -- change (l :: s) with ([l] ++ s).
           rewrite !lone_count_app, Hl1, Hs0.
           rewrite lone_count_app, Hs0 in Hc. rewrite Htot. lia.
        -- rewrite Hr. change (l :: s) with ([l] ++ s).
           rewrite !not_lone_app, Hln. reflexivity.
      * (* the cut falls inside [s]: nothing more was removed *)
        exists p, (l :: s). split; [exact Hlines|].
        assert (Hsuf0 : lone_count suf = 0).
        { subst s. rewrite lone_count_app in Hs0. lia. }
        split.
        -- change (l :: s) with ([l] ++ s).
           rewrite lone_count_app, Hl1, Hs0, Htot. lia.
        -- rewrite Hr, (lone_count_0_not_lone suf Hsuf0).
           change (l :: s) with ([l] ++ s).
           rewrite not_lone_app, Hln, (lone_count_0_not_lone s Hs0).
           subst pre s. rewrite <- app_assoc. reflexivity.
Qed.

(** What the removal does to the brace counts of the text. *)
Lemma count_lbrace_not_lone (l : list text) :
  count lbrace (concat (not_lone l)) = count lbrace (concat l).
Proof.
  unfold not_lone. induction l as [|x l IH]; simpl; [reflexivity|].
  destruct (is_lone x) eqn:E; simpl; rewrite !count_app, ?IH; [|reflexivity].
  destruct (is_lone_counts x E) as [-> _]. reflexivity.
Qed.

Lemma count_rbrace_not_lone (l : list text) :
  count rbrace (concat (not_lone l)) + lone_count l = count rbrace (concat l).
Proof.
  unfold not_lone, lone_count. induction l as [|x l IH]; simpl; [reflexivity|].
  destruct (is_lone x) eqn:E; simpl; rewrite !count_app; [|lia].
  destruct (is_lone_counts x E) as [_ ->]. lia.
Qed.

Lemma remove_surplus_counts (k : nat) (lines : list text) :
  count lbrace (concat (remove_surplus k lines)) = count lbrace (concat lines)
  /\ count rbrace (concat (remove_surplus k lines)) + Nat.min k (lone_count lines)
     = count rbrace (concat lines).
Proof.
  destruct (remove_surplus_spec k lines) as (pre & suf & E & Hc & Hr).
  rewrite Hr, <- Hc. subst lines.
  rewrite !concat_app, !count_app, count_lbrace_not_lone.
  split; [reflexivity|].
  pose proof (count_rbrace_not_lone suf). lia.
Qed.

End RemoveSurplus.

(** ** The brace fixers *)

Section BraceFixers.

Lemma count_readlines (c : char) (content : text) :
  count c (concat (readlines content)) = count c content.
Proof. now rewrite concat_readlines. Qed.

Lemma count_split (c : char) (content : text) :
  eqc nl c = false ->
  count c (concat (split nl content)) = count c content.
Proof.
  intros Hc. rewrite <- (count_join c nl) by assumption.
  now rewrite join_split.
Qed.

(** The auditor's final level is the brace balance of the file. *)
Lemma final_level (content : text) :
  AnalyzeAndFix.brace_level (AnalyzeAndFix.analyze (readlines content)) =
  (Z.of_nat (count lbrace content) - Z.of_nat (count rbrace content))%Z.
Proof. now rewrite analyze_level, depth_concat, concat_readlines. Qed.

Lemma count_closing (c : char) (n : nat) :
  count c (times (str "}" ++ [nl]) n) = n * count c (str "}" ++ [nl]).
Proof. apply count_times. Qed.

End BraceFixers.

(** C1, the counterexample.  On the file made of the two lines ["{"] and
    ["}}"] both fixers run (the depth ends at -1, the counts are 1 and 2),
    find no line that is a lone closing brace, and write the text back as it
    was: one ['{'] and two ['}']. *)
Lemma brace_fixer_leaves_unbalanced_file :
  let content := str "{" ++ [nl] ++ str "}}" ++ [nl] in
  AnalyzeAndFix.brace_level (AnalyzeAndFix.analyze (readlines content)) = (-1)%Z
  /\ written (AnalyzeAndFix.run content) = Some content
  /\ written (FixComplete.run content) = Some content
  /\ count lbrace content = 1 /\ count rbrace content = 2
  /\ count lbrace content <> count rbrace content.
Proof. vm_compute. repeat split; discriminate. Qed.

(** C1, amended.  For every input text, the file each brace fixer leaves
    holds exactly [surplus - n] more ['}'] than ['{'] (truncated at zero),
    where [surplus] is the excess of ['}'] over ['{'] in the input (zero
    when there is none) and [n] the number of its lines whose stripped
    content is ['}']: the file is balanced when closing braces were missing
    or when enough lone closing-brace lines exist to absorb the surplus. *)
Theorem brace_fixer_residual_surplus (content : text) :
  let surplus := count rbrace content - count lbrace content in
  let a := run_on AnalyzeAndFix.run content in
  let f := run_on FixComplete.run content in
  count rbrace a = count lbrace a + (surplus - lone_count (readlines content))
  /\ count rbrace f = count lbrace f + (surplus - lone_count (split nl content)).
Proof.
  intros surplus a f. split.
  - unfold a, run_on, file_after, AnalyzeAndFix.run.
    pose proof (final_level content) as Hl.
    set (lvl := AnalyzeAndFix.brace_level _) in *.
    destruct (lvl =? 0)%Z eqn:E0; cbn [negb written].
    + apply Z.eqb_eq in E0. unfold surplus. lia.
    + apply Z.eqb_neq in E0. unfold AnalyzeAndFix.fix_lines, writelines.
      destruct (lvl <? 0)%Z eqn:En.
      * apply Z.ltb_lt in En.
        destruct (remove_surplus_counts (Z.to_nat (- lvl)) (readlines content))
          as [Ho Hc].
        rewrite !count_readlines in *.
        rewrite Ho. unfold surplus. lia.
      * apply Z.ltb_ge in En.
        rewrite concat_app, !count_app, !count_readlines. simpl concat.
        rewrite !app_nil_r, !count_closing.
        change (count rbrace (str "}" ++ [nl])) with 1.
        change (count lbrace (str "}" ++ [nl])) with 0.
        unfold surplus. lia.
  - unfold f, run_on, file_after, FixComplete.run. cbn [written].
    destruct (count lbrace content <? count rbrace content) eqn:E1.
    + apply Nat.ltb_lt in E1.
      rewrite !(count_join _ nl) by reflexivity.
      destruct (remove_surplus_counts (count rbrace content - count lbrace content)
                  (split nl content)) as [Ho Hc].
      rewrite !count_split in * by reflexivity.
      rewrite Ho. unfold surplus. lia.
    + apply Nat.ltb_ge in E1.
      destruct (count rbrace content <? count lbrace content) eqn:E2.
      * apply Nat.ltb_lt in E2.
        rewrite !count_app, !count_closing.
        change (count rbrace (str "}" ++ [nl])) with 1.
        change (count lbrace (str "}" ++ [nl])) with 0.
        change (count rbrace [nl]) with 0. change (count lbrace [nl]) with 0.
        unfold surplus. lia.
      * apply Nat.ltb_ge in E2. unfold surplus. lia.
Qed.

(** C5.  On a file that is already balanced, the line-by-line fixer (final
    running depth zero) writes nothing and the whole-file fixer (equal
    global counts) writes back the content it read; either way the file is
    unchanged, after one run and after two. *)
Theorem balanced_file_unchanged (content : text) :
  (AnalyzeAndFix.brace_level (AnalyzeAndFix.analyze (readlines content)) = 0%Z ->
     AnalyzeAndFix.run content = Outcome Finished None
     /\ run_on AnalyzeAndFix.run content = content
     /\ run_on AnalyzeAndFix.run (run_on AnalyzeAndFix.run content) = content)
  /\ (count lbrace content = count rbrace content ->
     FixComplete.run content = Outcome Finished (Some content)
     /\ run_on FixComplete.run content = content
     /\ run_on FixComplete.run (run_on FixComplete.run content) = content).
Proof.
  split.
  - intros H.
    assert (E : AnalyzeAndFix.run content = Outcome Finished None).
    { unfold AnalyzeAndFix.run. rewrite H. reflexivity. }
    assert (R : run_on AnalyzeAndFix.run content = content).
    { unfold run_on. rewrite E. reflexivity. }
    rewrite !R. auto.
  - intros H.
    assert (E : FixComplete.run content = Outcome Finished (Some content)).
    { unfold FixComplete.run. rewrite H, Nat.ltb_irrefl. reflexivity. }
    assert (R : run_on FixComplete.run content = content).
    { unfold run_on. rewrite E. reflexivity. }
    rewrite !R. auto.
Qed.

Lemma balanced_file_unchanged_witness :
  let content := str "a {" ++ [nl] ++ str "}" ++ [nl] in
  (AnalyzeAndFix.run content = Outcome Finished None
   /\ run_on AnalyzeAndFix.run content = content
   /\ run_on AnalyzeAndFix.run (run_on AnalyzeAndFix.run content) = content)
  /\ (FixComplete.run content = Outcome Finished (Some content)
   /\ run_on FixComplete.run content = content
   /\ run_on FixComplete.run (run_on FixComplete.run content) = content).
Proof.
  intros content.
  destruct (balanced_file_unchanged content) as [Ha Hf].
  split; [apply Ha; reflexivity | apply Hf; reflexivity].
Defined.

(** C10.  When closing braces are in surplus, each fixer deletes lines of a
    suffix of the file only: the deleted lines are the ones of that suffix
    whose stripped content is exactly ['}'], there are [min surplus n] of
    them ([n] being the number of such lines in the whole file), so they are
    the last ones; every other line is written unchanged, in its original
    order. *)
Theorem surplus_removal_frame (content : text) :
  count lbrace content < count rbrace content ->
  let surplus := count rbrace content - count lbrace content in
  (exists pre suf,
      readlines content = pre ++ suf
      /\ lone_count suf = Nat.min surplus (lone_count (readlines content))
      /\ Forall (fun l => strip l = str "}") (filter is_lone suf)
      /\ written (AnalyzeAndFix.run content) = Some (writelines (pre ++ not_lone suf)))
  /\ (exists pre suf,
      split nl content = pre ++ suf
      /\ lone_count suf = Nat.min surplus (lone_count (split nl content))
      /\ Forall (fun l => strip l = str "}") (filter is_lone suf)
      /\ written (FixComplete.run content) = Some (join [nl] (pre ++ not_lone suf))).
Proof.
  intros Hlt surplus.
  assert (Hdel : forall suf, Forall (fun l => strip l = str "}") (filter is_lone suf)).
  { intros suf. apply Forall_forall. intros l Hl.
    apply filter_In in Hl. now apply is_lone_strip. }
  split.
  - destruct (remove_surplus_spec surplus (readlines content))
      as (pre & suf & E & Hc & Hr).
    exists pre, suf. repeat split; auto.
    unfold AnalyzeAndFix.run. pose proof (final_level content) as Hl.
    set (lvl := AnalyzeAndFix.brace_level _) in *.
    assert (E0 : (lvl =? 0)%Z = false) by (apply Z.eqb_neq; lia).
    assert (En : (lvl <? 0)%Z = true) by (apply Z.ltb_lt; lia).
    rewrite E0. cbn [negb written]. unfold AnalyzeAndFix.fix_lines. rewrite En.
    replace (Z.to_nat (- lvl)) with surplus by (unfold surplus; lia).
    now rewrite Hr.
  - destruct (remove_surplus_spec surplus (split nl content))
      as (pre & suf & E & Hc & Hr).
    exists pre, suf. repeat split; auto.
    unfold FixComplete.run. apply Nat.ltb_lt in Hlt. rewrite Hlt. cbn [written].
    fold surplus. now rewrite Hr.
Qed.

Lemma surplus_removal_frame_witness :
  let content := str "{" ++ [nl] ++ str "}" ++ [nl] ++ str "  }" ++ [nl] in
  (exists pre suf,
      readlines content = pre ++ suf
      /\ lone_count suf = Nat.min 1 (lone_count (readlines content))
      /\ Forall (fun l => strip l = str "}") (filter is_lone suf)
      /\ written (AnalyzeAndFix.run content) = Some (writelines (pre ++ not_lone suf)))
  /\ (exists pre suf,
      split nl content = pre ++ suf
      /\ lone_count suf = Nat.min 1 (lone_count (split nl content))
      /\ Forall (fun l => strip l = str "}") (filter is_lone suf)
      /\ written (FixComplete.run content) = Some (join [nl] (pre ++ not_lone suf))).
Proof.
  intros content.
  apply (surplus_removal_frame content).
  vm_compute. lia.
Defined.

(** ** The brace-depth-based rebuilder *)

Section Rebuilder.
Import RebuildFavoritesSection.

(** The first loop stops at the first line that holds the marker. *)
Lemma find_start_none (lines : list text) : forall i,
  find_start i lines = None <->
  (forall l, In l lines -> contains marker l = false).
Proof.
  induction lines as [|x xs IH]; intros i; simpl.
  - split; [intros _ l [] | reflexivity].
  - destruct (contains marker x) eqn:E.
    + split; [discriminate|]. intros H.
      specialize (H x (or_introl eq_refl)). congruence.
    + rewrite IH. split.
      * intros H l [<- | Hl]; auto.
      * intros H l Hl. apply H. now right.
Qed.

Lemma find_start_some (lines : list text) : forall i s,
  find_start i lines = Some s <->
  exists j, s = i + j /\ j < length lines
            /\ contains marker (nth j lines []) = true
            /\ forall j', j' < j -> contains marker (nth j' lines []) = false.
Proof.
  induction lines as [|x xs IH]; intros i s; simpl.
  - split; [discriminate|]. intros (j & _ & Hj & _). lia.
  - destruct (contains marker x) eqn:E.
    + split.
      * intros H. injection H as <-. exists 0.
        repeat split; [lia | lia | exact E | intros j' Hj'; lia].
      * intros (j & -> & _ & Hc & Hfirst).
        destruct j as [|j]; [f_equal; lia|].
        specialize (Hfirst 0 ltac:(lia)). simpl in Hfirst. congruence.
    + rewrite IH. split.
      * intros (j & -> & Hj & Hc & Hfirst). exists (S j).
        repeat split; [lia | lia | exact Hc |].
        intros [|j'] Hj'; [exact E | apply Hfirst; lia].
      * intros (j & -> & Hj & Hc & Hfirst).
        destruct j as [|j]; [simpl in Hc; congruence|].
        exists j. repeat split; [lia | lia | exact Hc |].
        intros j' Hj'. apply (Hfirst (S j')). lia.
Qed.

(** The second loop stops at the first line after [start_idx] at which
    the count is back to zero. *)
Lemma find_end_none (start_idx : nat) (rest : list text) : forall i b,
  find_end start_idx i b rest = None <->
  (forall j, j < length rest ->
             ~ ((b + depth (firstn (S j) rest) = 0)%Z /\ start_idx < i + j)).
Proof.
  induction rest as [|x xs IH]; intros i b; cbn [find_end].
  - split; [intros _ j Hj; simpl in Hj; lia | reflexivity].
  - set (b' := (b + (Z.of_nat (count lbrace x) - Z.of_nat (count rbrace x)))%Z).
    assert (Ed : forall j, (b + depth (firstn (S (S j)) (x :: xs))
                            = b' + depth (firstn (S j) xs))%Z).
    { intros j. cbn [firstn depth]. unfold b'. lia. }
    assert (E0 : (b + depth (firstn 1 (x :: xs)) = b')%Z).
    { simpl. unfold b'. lia. }
    destruct ((b' =? 0)%Z && (start_idx <? i)) eqn:E.
    + split; [discriminate|]. intros H. exfalso.
      apply andb_true_iff in E. destruct E as [Eb Ei].
      apply Z.eqb_eq in Eb. apply Nat.ltb_lt in Ei.
      apply (H 0); [simpl; lia|]. rewrite E0. split; [exact Eb | lia].
    + rewrite IH. apply andb_false_iff in E. split.
      * intros H [|j] Hj.
        -- rewrite E0. intros [Hb Hi].
           destruct E as [E | E]; [apply Z.eqb_neq in E | apply Nat.ltb_ge in E]; lia.
        -- rewrite Ed. intros [Hb Hi]. apply (H j); [simpl in Hj; lia|].
           split; [exact Hb | lia].
      * intros H j Hj [Hb Hi]. apply (H (S j)); [simpl; lia|].
        rewrite Ed. split; [exact Hb | lia].
Qed.

Lemma find_end_some (start_idx : nat) (rest : list text) : forall i b e,
  find_end start_idx i b rest = Some e <->
  exists j, e = i + j /\ j < length rest
            /\ (b + depth (firstn (S j) rest) = 0)%Z /\ start_idx < e
            /\ forall j', j' < j ->
                 ~ ((b + depth (firstn (S j') rest) = 0)%Z /\ start_idx < i + j').
Proof.
  induction rest as [|x xs IH]; intros i b e; cbn [find_end].
  - split; [discriminate|]. intros (j & _ & Hj & _). simpl in Hj. lia.
  - set (b' := (b + (Z.of_nat (count lbrace x) - Z.of_nat (count rbrace x)))%Z).
    assert (Ed : forall j, (b + depth (firstn (S (S j)) (x :: xs))
                            = b' + depth (firstn (S j) xs))%Z).
    { intros j. cbn [firstn depth]. unfold b'. lia. }
    assert (E0 : (b + depth (firstn 1 (x :: xs)) = b')%Z).
    { simpl. unfold b'. lia. }
    destruct ((b' =? 0)%Z && (start_idx <? i)) eqn:E.
    + apply andb_true_iff in E. destruct E as [Eb Ei].
      apply Z.eqb_eq in Eb. apply Nat.ltb_lt in Ei. split.
      * intros H. injection H as <-. exists 0.
        repeat split; [lia | simpl; lia | now rewrite E0 | lia | intros j' Hj'; lia].
      * intros (j & -> & Hj & Hb & Hi & Hfirst).
        destruct j as [|j]; [f_equal; lia|]. exfalso.
        apply (Hfirst 0); [lia|]. rewrite E0. split; [exact Eb | lia].
    + rewrite IH. apply andb_false_iff in E. split.
      * intros (j & -> & Hj & Hb & Hi & Hfirst). exists (S j).
        repeat split; [lia | simpl; lia | now rewrite Ed | lia |].
        intros [|j'] Hj'.
        -- rewrite E0. intros [Hb' Hi'].
           destruct E as [E | E]; [apply Z.eqb_neq in E | apply Nat.ltb_ge in E]; lia.
        -- rewrite Ed. intros [Hb' Hi']. apply (Hfirst j'); [lia|].
           split; [exact Hb' | lia].
      * intros (j & -> & Hj & Hb & Hi & Hfirst).
        destruct j as [|j].
        -- exfalso. rewrite E0 in Hb.
           destruct E as [E | E]; [apply Z.eqb_neq in E | apply Nat.ltb_ge in E]; lia.
        -- exists j. repeat split; [lia | simpl in Hj; lia | now rewrite <- Ed | lia |].
           intros j' Hj' [Hb' Hi']. apply (Hfirst (S j')); [lia|].
           rewrite Ed. split; [exact Hb' | lia].
Qed.

End Rebuilder.

(** C7, the counterexample.  In the four-line file below the marker is on
    lines 0 and 2.  Line 2 holds it and the depth summed from line 2 first
    returns to zero at line 3, yet the script replaces lines 0 to 1: it
    takes the first line that holds the marker. *)
Lemma rebuild_replaces_from_first_marker_line :
  let m := RebuildFavoritesSection.marker ++ [nl] in
  let c := str "}" ++ [nl] in
  let lines := [m; c; m; c] in
  contains RebuildFavoritesSection.marker (nth 2 lines []) = true
  /\ 2 < 3 < length lines
  /\ RebuildFavoritesSection.depth_between 2 3 lines = 0%Z
  /\ (forall i, 2 < i < 3 -> RebuildFavoritesSection.depth_between 2 i lines <> 0%Z)
  /\ written (RebuildFavoritesSection.rebuild lines) =
       Some (writelines ([RebuildFavoritesSection.new_section] ++ [m; c]))
  /\ written (RebuildFavoritesSection.rebuild lines) <>
       Some (writelines (firstn 2 lines ++ [RebuildFavoritesSection.new_section]
                         ++ skipn 4 lines)).
Proof.
  intros m c lines.
  split; [reflexivity|]. split; [simpl; lia|]. split; [reflexivity|].
  split; [intros i Hi; lia|].
  split; [reflexivity|].
  intros H. vm_compute in H. discriminate H.
Qed.

(** C7, amended.  When [s] is the first line that holds the start marker,
    and the running brace depth summed from line [s] first returns to zero
    at a later line [e], the rebuilder writes lines [0..s-1] unchanged, then
    the fixed replacement block, then lines [e+1..] unchanged: exactly lines
    [s] to [e] are replaced. *)
Theorem rebuild_replaces_section (lines : list text) (s e : nat) :
  s < e < length lines ->
  contains RebuildFavoritesSection.marker (nth s lines []) = true ->
  (forall j, j < s -> contains RebuildFavoritesSection.marker (nth j lines []) = false) ->
  RebuildFavoritesSection.depth_between s e lines = 0%Z ->
  (forall i, s < i < e -> RebuildFavoritesSection.depth_between s i lines <> 0%Z) ->
  RebuildFavoritesSection.rebuild lines =
    Outcome Finished
      (Some (writelines (firstn s lines ++ [RebuildFavoritesSection.new_section]
                         ++ skipn (S e) lines))).
Proof.
  intros Hse Hm Hfirst Hzero Hnz.
  unfold RebuildFavoritesSection.rebuild, RebuildFavoritesSection.depth_between in *.
  assert (Hs : RebuildFavoritesSection.find_start 0 lines = Some s).
  { apply find_start_some. exists s. repeat split; auto. lia. }
  rewrite Hs.
  assert (He : RebuildFavoritesSection.find_end s s 0 (skipn s lines) = Some e).
  { apply find_end_some. exists (e - s).
    split; [lia|]. split; [rewrite length_skipn; lia|].
    split; [replace (S (e - s)) with (S e - s) by lia; rewrite Hzero; reflexivity|].
    split; [lia|].
    intros j' Hj' [Hb Hi].
    apply (Hnz (s + j')); [lia|].
    replace (S (s + j') - s) with (S j') by lia. lia. }
  rewrite He. reflexivity.
Qed.

Lemma rebuild_replaces_section_witness :
  let lines :=
    [str "x {" ++ [nl];
     str "  for fav in root.favorites : Rectangle {" ++ [nl];
     str "    Text { }" ++ [nl];
     str "    a {" ++ [nl];
     str "    }" ++ [nl];
     str "  }" ++ [nl];
     str "}" ++ [nl]] in
  RebuildFavoritesSection.rebuild lines =
    Outcome Finished
      (Some (writelines (firstn 1 lines ++ [RebuildFavoritesSection.new_section]
                         ++ skipn 6 lines))).
Proof.
  intros lines.
  apply (rebuild_replaces_section lines 1 5).
  - simpl. lia.
  - reflexivity.
  - intros j Hj. destruct j as [|j]; [reflexivity | lia].
  - reflexivity.
  - intros i Hi.
    destruct i as [|[|[|[|[|i]]]]]; try lia; vm_compute; discriminate.
Defined.

(** C9.  If no line holds the start marker, or the running brace depth
    summed from the start line (the first one that holds it) never returns
    to zero on a later line, the rebuilder ends through [exit(1)] before its
    write step: nothing is written and the file is unchanged. *)
Theorem rebuild_error_paths_write_nothing (content : text) :
  let lines := readlines content in
  (forall l, In l lines -> contains RebuildFavoritesSection.marker l = false)
  \/ (exists s, s < length lines
        /\ contains RebuildFavoritesSection.marker (nth s lines []) = true
        /\ (forall j, j < s ->
              contains RebuildFavoritesSection.marker (nth j lines []) = false)
        /\ forall e, s < e < length lines ->
              RebuildFavoritesSection.depth_between s e lines <> 0%Z) ->
  RebuildFavoritesSection.run content = Outcome (Exited 1) None
  /\ run_on RebuildFavoritesSection.run content = content.
Proof.
  intros lines H.
  assert (E : RebuildFavoritesSection.run content = Outcome (Exited 1) None).
  { unfold RebuildFavoritesSection.run, RebuildFavoritesSection.rebuild.
    fold lines. destruct H as [Hno | (s & Hs & Hm & Hfirst & Hnz)].
    - apply (find_start_none lines 0) in Hno. now rewrite Hno.
    - assert (Hst : RebuildFavoritesSection.find_start 0 lines = Some s).
      { apply find_start_some. exists s. repeat split; auto. }
      rewrite Hst.
      assert (He : RebuildFavoritesSection.find_end s s 0 (skipn s lines) = None).
      { apply find_end_none. intros j Hj [Hb Hi].
        rewrite length_skipn in Hj.
        apply (Hnz (s + j)); [lia|].
        unfold RebuildFavoritesSection.depth_between.
        replace (S (s + j) - s) with (S j) by lia. lia. }
      now rewrite He. }
  split; [exact E|]. unfold run_on. rewrite E. reflexivity.
Qed.

Lemma rebuild_error_paths_write_nothing_witness :
  (let content := str "Window {" ++ [nl] ++ str "}" ++ [nl] in
   RebuildFavoritesSection.run content = Outcome (Exited 1) None
   /\ run_on RebuildFavoritesSection.run content = content)
  /\ (let content :=
        str "for fav in root.favorites : Rectangle {" ++ [nl] ++ str "  x" ++ [nl] in
      RebuildFavoritesSection.run content = Outcome (Exited 1) None
      /\ run_on RebuildFavoritesSection.run content = content).
Proof.
  split.
  - apply (rebuild_error_paths_write_nothing (str "Window {" ++ [nl] ++ str "}" ++ [nl])).
    left. intros l Hl. simpl in Hl.
    destruct Hl as [<- | [<- | []]]; reflexivity.
  - apply (rebuild_error_paths_write_nothing
             (str "for fav in root.favorites : Rectangle {" ++ [nl] ++ str "  x" ++ [nl])).
    right. exists 0. split; [simpl; lia|]. split; [reflexivity|].
    split; [intros j Hj; lia|].
    intros e He. simpl in He.
    destruct e as [|[|e]]; try lia. vm_compute. discriminate.
Defined.

(** ** Substitution without a match *)

Section Substitution.
Import Re.

Lemma search_none (r : regex) (s : text) :
  search r s = None ->
  match_here r s = None
  /\ match s with [] => True | _ :: s' => search r s' = None end.
Proof.
  destruct s as [|c s']; cbn [search];
    destruct (match_here r _); intros H; try discriminate; auto.
Qed.

(** Without a match anywhere, [re.sub] copies its input. *)
Lemma sub_no_match (r : regex) (repl : groups -> text) (s : text) :
  search r s = None -> sub r repl s = s.
Proof.
  unfold sub. induction s as [|c s IH]; intros H.
  - apply search_none in H. destruct H as [Hm _].
    cbn [sub_from]. now rewrite Hm.
  - apply search_none in H. destruct H as [Hm Hs].
    cbn [sub_from]. rewrite Hm, (IH Hs). reflexivity.
Qed.

(** A match never ends before the place where it started, and a pattern
    that [consumes] ends strictly after it: for such a pattern the clause of
    [sub_from] for an empty match is never taken. *)
Lemma literal_length (t : text) : forall s s',
  literal t s = Some s' -> length s = length t + length s'.
Proof.
  induction t as [|x t IH]; intros [|y s] s'; simpl; try discriminate.
  - intros H. now injection H as <-.
  - intros H. now injection H as <-.
  - destruct (eqc x y); [|discriminate]. intros H. now rewrite (IH _ _ H).
Qed.

Lemma lazy_star_bounded (d : nat) (cls : char -> bool) (k : cont) :
  bounded d k -> forall g, bounded d (fun s _ => lazy_star cls k g s).
Proof.
  intros Hk g s _ rest g'. induction s as [|c s IH]; simpl.
  - destruct (k [] g) as [r|] eqn:E; [|discriminate].
    intros H. injection H as ->. apply (Hk _ _ _ _ E).
  - destruct (k (c :: s) g) as [r|] eqn:E.
    + intros H. injection H as ->. apply (Hk _ _ _ _ E).
    + destruct (cls c); [|discriminate]. intros H. specialize (IH H). simpl. lia.
Qed.

Lemma greedy_star_bounded (d : nat) (cls : char -> bool) (k : cont) :
  bounded d k -> forall g, bounded d (fun s _ => greedy_star cls k g s).
Proof.
  intros Hk g s _ rest g'. induction s as [|c s IH]; simpl.
  - apply Hk.
  - destruct (cls c); [|apply Hk].
    destruct (greedy_star cls k g s) as [r|] eqn:E.
    + intros H. injection H as ->. specialize (IH eq_refl). simpl. lia.
    + apply Hk.
Qed.

Lemma run_bounded (r : regex) : forall d k,
  bounded d k -> bounded d (fun s g => run r s g k).
Proof.
  induction r as [t|cls|cls|r1 IH1 r2 IH2|n r1 IH1|r1 IH1];
    intros d k Hk s g rest g'; cbn [run].
  - destruct (literal t s) as [s'|] eqn:E; [|discriminate].
    intros H. apply Hk in H. apply literal_length in E. lia.
  - apply (lazy_star_bounded d cls k Hk g s g).
  - destruct s as [|c s]; [discriminate|]. destruct (cls c); [|discriminate].
    intros H. apply (greedy_star_bounded d cls k Hk g s g) in H. simpl. lia.
  - apply (IH1 d (fun s' g' => run r2 s' g' k)). apply IH2, Hk.
  - apply (IH1 d (fun s' g' => k s' ((n, firstn (length s - length s') s) :: g'))).
    intros s1 g1 rest1 g1'. apply Hk.
  - destruct (run r1 s g (fun s' g' => Some (s', g'))) as [[_ g1]|]; [|discriminate].
    apply Hk.
Qed.

Lemma run_consumes (r : regex) : consumes r = true -> forall d k,
  bounded d k -> bounded (S d) (fun s g => run r s g k).
Proof.
  induction r as [t|cls|cls|r1 IH1 r2 IH2|n r1 IH1|r1 IH1];
    cbn [consumes]; intros Hc d k Hk s g rest g'; cbn [run]; try discriminate.
  - destruct (literal t s) as [s'|] eqn:E; [|discriminate].
    intros H. apply Hk in H. apply literal_length in E.
    destruct t as [|x t]; [discriminate|]. simpl in E. lia.
  - destruct s as [|c s]; [discriminate|]. destruct (cls c); [|discriminate].
    intros H. apply (greedy_star_bounded d cls k Hk g s g) in H. simpl. lia.
  - destruct (consumes r1) eqn:E1.
    + apply (IH1 eq_refl d (fun s' g' => run r2 s' g' k)).
      apply run_bounded, Hk.
    + simpl in Hc.
      apply (run_bounded r1 (S d) (fun s' g' => run r2 s' g' k)).
      apply (IH2 Hc), Hk.
  - apply (IH1 Hc d (fun s' g' => k s' ((n, firstn (length s - length s') s) :: g'))).
    intros s1 g1 rest1 g1'. apply Hk.
Qed.

Lemma match_here_consumes (r : regex) (s rest : text) (g : groups) :
  consumes r = true -> match_here r s = Some (rest, g) -> length rest < length s.
Proof.
  intros Hc H. unfold match_here in H.
  apply (run_consumes r Hc 0 (fun s' g' => Some (s', g'))) in H; [lia|].
  intros s1 g1 rest1 g1' E. injection E as <- _. lia.
Qed.

Lemma patterns_consume :
  consumes FixFavorites.pattern = true /\ consumes FixFinal.pattern = true.
Proof. split; reflexivity. Qed.

End Substitution.

(** C4.  When the section-replacing regular expression has no match in the
    text, the regex-based section replacer and the pattern-based rebuilder
    each write back exactly the content they read. *)
Theorem failed_match_writes_content_back (content : text) :
  (Re.search FixFavorites.pattern content = None ->
     FixFavorites.run content = Outcome Finished (Some content)
     /\ run_on FixFavorites.run content = content)
  /\ (Re.search FixFinal.pattern content = None ->
     FixFinal.run content = Outcome Finished (Some content)
     /\ run_on FixFinal.run content = content).
Proof.
  split; intros H.
  - unfold run_on, FixFavorites.run. rewrite (sub_no_match _ _ _ H). auto.
  - unfold run_on, FixFinal.run. rewrite (sub_no_match _ _ _ H). auto.
Qed.

Lemma failed_match_writes_content_back_witness :
  let content :=
    str "for fav in root.favorites : Rectangle {" ++ [nl]
    ++ str "  VerticalLayout { }" ++ [nl] ++ str "}" ++ [nl] in
  (FixFavorites.run content = Outcome Finished (Some content)
   /\ run_on FixFavorites.run content = content)
  /\ (FixFinal.run content = Outcome Finished (Some content)
   /\ run_on FixFinal.run content = content).
Proof.
  intros content.
  destruct (failed_match_writes_content_back content) as [Ha Hb].
  split; [apply Ha; vm_compute; reflexivity | apply Hb; vm_compute; reflexivity].
Defined.

(** ** Exit codes *)

(** C3, the counterexample.  On an empty file the brace-depth-based
    rebuilder finds no start marker and leaves through [exit(1)]: a nonzero
    exit code of its own for a failure mode. *)
Lemma rebuild_exits_with_code_1 :
  term (RebuildFavoritesSection.run []) = Exited 1
  /\ exit_status (term (RebuildFavoritesSection.run [])) <> 0%Z.
Proof. split; [reflexivity | discriminate]. Qed.

(** The rebuilder takes [exit(1)] on its two failure modes and on no other
    input. *)
Lemma rebuild_failure_modes (lines : list text) :
  (term (RebuildFavoritesSection.rebuild lines) = Exited 1
   /\ (no_marker_line lines \/ section_never_closes lines))
  \/ (term (RebuildFavoritesSection.rebuild lines) = Finished
      /\ ~ (no_marker_line lines \/ section_never_closes lines)).
Proof.
  unfold RebuildFavoritesSection.rebuild.
  destruct (RebuildFavoritesSection.find_start 0 lines) as [s|] eqn:Es.
  - apply find_start_some in Es. destruct Es as (j & -> & Hj & Hm & Hfirst).
    cbn [Nat.add] in *.
    destruct (RebuildFavoritesSection.find_end j j 0 (skipn j lines)) as [e|] eqn:Ee.
    + right. split; [reflexivity|].
      apply find_end_some in Ee. destruct Ee as (d & -> & Hd & Hz & Hlt & _).
      rewrite length_skipn in Hd.
      intros [Hno | (s' & Hs' & Hm' & Hfirst' & Hnz)].
      * rewrite (Hno (nth j lines [])) in Hm; [discriminate | now apply nth_In].
      * assert (s' = j).
        { destruct (Nat.lt_trichotomy s' j) as [Hlt' | [-> | Hgt]]; [|reflexivity|].
          - rewrite (Hfirst s' Hlt') in Hm'. discriminate.
          - rewrite (Hfirst' j Hgt) in Hm. discriminate. }
        subst s'. apply (Hnz (j + d)); [lia|].
        unfold RebuildFavoritesSection.depth_between.
        replace (S (j + d) - j) with (S d) by lia. lia.
    + left. split; [reflexivity|]. right. exists j.
      split; [exact Hj|]. split; [exact Hm|]. split; [exact Hfirst|].
      intros e He Hzero.
      pose proof (proj1 (find_end_none j (skipn j lines) j 0) Ee (e - j)) as Hn.
      rewrite length_skipn in Hn. apply Hn; [lia|].
      unfold RebuildFavoritesSection.depth_between in Hzero.
      replace (S e - j) with (S (e - j)) in Hzero by lia. split; lia.
  - left. split; [reflexivity|]. left. unfold no_marker_line.
    now apply (find_start_none lines 0).
Qed.

(** C3, amended.  Every script ends with the success status on every
    control path that reaches its end, and on no other.  No script other
    than the brace-depth-based rebuilder defines an exit code of its own.
    The rebuilder defines one, 1: it ends through [exit(1)] exactly when no
    line holds the start marker, or the brace depth summed from the first
    line that holds it never returns to zero on a later line. *)
Theorem only_the_rebuilder_defines_an_exit_code :
  (forall content,
      (exit_status (term (AnalyzeAndFix.run content)) = 0%Z
         <-> term (AnalyzeAndFix.run content) = Finished)
      /\ (exit_status (term (FixComplete.run content)) = 0%Z
         <-> term (FixComplete.run content) = Finished)
      /\ (exit_status (term (FixFavorites.run content)) = 0%Z
         <-> term (FixFavorites.run content) = Finished)
      /\ (exit_status (term (FixFinal.run content)) = 0%Z
         <-> term (FixFinal.run content) = Finished)
      /\ (exit_status (term (RebuildFavoritesSection.run content)) = 0%Z
         <-> term (RebuildFavoritesSection.run content) = Finished))
  /\ (forall data,
      exit_status (term (CleanRecent.run data)) = 0%Z
        <-> term (CleanRecent.run data) = Finished)
  /\ (forall content code,
      term (AnalyzeAndFix.run content) <> Exited code
      /\ term (FixComplete.run content) <> Exited code
      /\ term (FixFavorites.run content) <> Exited code
      /\ term (FixFinal.run content) <> Exited code)
  /\ (forall data code, term (CleanRecent.run data) <> Exited code)
  /\ (forall content code,
      term (RebuildFavoritesSection.run content) = Exited code
      <-> code = 1%Z
          /\ (no_marker_line (readlines content)
              \/ section_never_closes (readlines content))).
Proof.
  assert (Ha : forall content, term (AnalyzeAndFix.run content) = Finished).
  { intros content. unfold AnalyzeAndFix.run. now destruct (negb _). }
  split; [|split; [|split; [|split]]].
  - intros content. rewrite (Ha content).
    split; [split; auto|]. split; [split; auto|].
    split; [split; auto|]. split; [split; auto|].
    unfold RebuildFavoritesSection.run.
    destruct (rebuild_failure_modes (readlines content)) as [[Ht _] | [Ht _]];
      rewrite Ht; split; auto; discriminate.
  - intros data. unfold CleanRecent.run.
    destruct (CleanRecent.clean data); cbn [term exit_status];
      split; auto; discriminate.
  - intros content code. rewrite (Ha content). repeat split; discriminate.
  - intros data code. unfold CleanRecent.run.
    destruct (CleanRecent.clean data); discriminate.
  - intros content code. unfold RebuildFavoritesSection.run.
    destruct (rebuild_failure_modes (readlines content)) as [[Ht Hf] | [Ht Hf]];
      rewrite Ht; split.
    + intros H. injection H as <-. auto.
    + intros [-> _]. reflexivity.
    + discriminate.
    + intros [_ Hf']. now destruct Hf.
Qed.

(** ** The config pruner *)

Section Pruner.
Import CleanRecent.

Lemma lookup_split (key : text) (d : dict) (v : json) :
  lookup key d = Some v ->
  exists before after,
    d = before ++ (key, v) :: after /\ lookup key before = None.
Proof.
  induction d as [|[k x] d IH]; simpl; [discriminate|].
  destruct (text_eqb k key) eqn:E.
  - intros H. injection H as ->. apply text_eqb_eq in E. subst k.
    exists [], d. split; reflexivity.
  - intros H. destruct (IH H) as (before & after & -> & Hn).
    exists ((k, x) :: before), after. split; [reflexivity|].
    simpl. now rewrite E.
Qed.

Lemma store_split (key : text) (before after : dict) (old v : json) :
  lookup key before = None ->
  store key v (before ++ (key, old) :: after) = before ++ (key, v) :: after.
Proof.
  induction before as [|[k x] before IH]; simpl.
  - intros _. now rewrite text_eqb_refl.
  - destruct (text_eqb k key); [discriminate|].
    intros H. now rewrite IH.
Qed.

Lemma lookup_store (key : text) (v : json) (d : dict) :
  lookup key (store key v d) = Some v.
Proof.
  induction d as [|[k x] d IH]; simpl.
  - now rewrite text_eqb_refl.
  - destruct (text_eqb k key) eqn:E; simpl; now rewrite E.
Qed.

Lemma store_store (key : text) (v : json) (d : dict) :
  store key v (store key v d) = store key v d.
Proof.
  induction d as [|[k x] d IH]; simpl.
  - now rewrite text_eqb_refl.
  - destruct (text_eqb k key) eqn:E; simpl; rewrite E; [reflexivity | now rewrite IH].
Qed.

(** On a record with a [path], the condition of the comprehension is the
    negation of [blocked]. *)
Lemma keeps_has_path (folder : json) :
  has_path folder -> keeps folder = ret (negb (blocked folder)).
Proof.
  intros (fields & p & -> & Hp). unfold keeps, blocked. simpl. now rewrite Hp.
Qed.

Lemma comprehension_records (folders : list json) :
  Forall has_path folders ->
  comprehension folders = ret (filter (fun f => negb (blocked f)) folders).
Proof.
  induction 1 as [|f fs Hf _ IH]; [reflexivity|].
  cbn [comprehension filter]. rewrite (keeps_has_path f Hf), IH. simpl.
  destruct (blocked f); reflexivity.
Qed.

(** Whatever the entries are, a comprehension that succeeds keeps only
    entries its condition accepts, and fewer than it was given. *)
Lemma comprehension_kept (folders : list json) : forall kept,
  comprehension folders = inr kept ->
  Forall (fun f => keeps f = inr true) kept /\ length kept <= length folders.
Proof.
  induction folders as [|f fs IH]; intros kept; cbn [comprehension].
  - intros H. injection H as <-. split; [constructor | simpl; lia].
  - destruct (keeps f) as [e|b] eqn:Ef; [discriminate|]. simpl.
    destruct (comprehension fs) as [e|k]; [discriminate|]. simpl.
    destruct (IH k eq_refl) as [Hk Hlen].
    intros H. injection H as <-.
    destruct b; split; simpl; try lia; auto.
Qed.

Lemma comprehension_fixed (kept : list json) :
  Forall (fun f => keeps f = inr true) kept -> comprehension kept = inr kept.
Proof.
  induction 1 as [|f fs Hf _ IH]; [reflexivity|].
  cbn [comprehension]. rewrite Hf, IH. reflexivity.
Qed.

(** The shape of a successful run. *)
Lemma clean_inr (data data' : json) :
  clean data = inr data' ->
  exists d old folders kept,
    data = JDict d /\ lookup recent_folders d = Some old
    /\ iter old = inr folders /\ comprehension folders = inr kept
    /\ data' = JDict (store recent_folders (JList kept) d).
Proof.
  unfold clean, getitem.
  destruct data as [| | | | | |d]; try discriminate.
  destruct (lookup recent_folders d) as [old|] eqn:El; [|discriminate].
  cbn [bind ret].
  destruct (len old) as [e|n]; [discriminate|]. cbn [bind].
  destruct (iter old) as [e|folders] eqn:Ei; [discriminate|]. cbn [bind].
  destruct (comprehension folders) as [e|kept] eqn:Ec; [discriminate|]. cbn [bind].
  intros H. injection H as <-.
  exists d, old, folders, kept. auto.
Qed.

End Pruner.

Section PrunerKept.
Import CleanRecent.

Lemma keeps_true (folder : json) :
  keeps folder = inr true -> has_path folder /\ blocked folder = false.
Proof.
  unfold keeps, getitem, has_path, blocked.
  destruct folder as [| | | | | |fields]; try discriminate.
  destruct (lookup path fields) as [[| | | |p| |]|] eqn:El; try discriminate.
  cbn [bind ret]. intros H. injection H as H. apply negb_true_iff in H.
  split; [now exists fields, p | exact H].
Qed.

Lemma recent_of_store (kept : list json) (d : dict) :
  recent_of (JDict (store recent_folders (JList kept) d)) = kept.
Proof. unfold recent_of, getitem. now rewrite lookup_store. Qed.

End PrunerKept.

(** C2, the counterexample.  In the document
    [{"recent_folders": [{"path": null}]}] the one entry is a record with a
    [path] attribute, and that path does not start with [/test/path]: the
    claim has the pruner write the document back with the entry kept.  The
    condition of the comprehension calls [startswith] on [null], raises
    [AttributeError], and nothing is written. *)
Lemma pruner_raises_on_a_path_that_is_no_string :
  let entry := CleanRecent.JDict [(CleanRecent.path, CleanRecent.JNull)] in
  let data := CleanRecent.JDict
                [(CleanRecent.recent_folders, CleanRecent.JList [entry])] in
  (exists fields v, entry = CleanRecent.JDict fields
                    /\ CleanRecent.lookup CleanRecent.path fields = Some v)
  /\ CleanRecent.blocked entry = false
  /\ CleanRecent.run data = Outcome (Raised AttributeError) None
  /\ written (CleanRecent.run data) <> Some data.
Proof.
  intros entry data. split.
  - exists [(CleanRecent.path, CleanRecent.JNull)], CleanRecent.JNull.
    split; reflexivity.
  - split; [reflexivity|]. split; [reflexivity | discriminate].
Qed.

(** C2, amended.  For a document whose [recent_folders] field is an array
    of records whose [path] attribute is a string, the pruner writes back
    the same document with that one field replaced, in place, by the array
    of the original entries whose path does not start with [/test/path], in
    their original order. *)
Theorem pruner_filters_recent_folders
    (d : CleanRecent.dict) (folders : list CleanRecent.json) :
  CleanRecent.lookup CleanRecent.recent_folders d = Some (CleanRecent.JList folders) ->
  Forall CleanRecent.has_path folders ->
  exists before after,
    d = before ++ (CleanRecent.recent_folders, CleanRecent.JList folders) :: after
    /\ CleanRecent.lookup CleanRecent.recent_folders before = None
    /\ CleanRecent.run (CleanRecent.JDict d) =
         Outcome Finished
           (Some (CleanRecent.JDict
                    (before
                     ++ (CleanRecent.recent_folders,
                         CleanRecent.JList
                           (filter (fun f => negb (CleanRecent.blocked f)) folders))
                     :: after))).
Proof.
  intros Hl Hrec.
  destruct (lookup_split _ _ _ Hl) as (before & after & Hd & Hn).
  exists before, after. split; [exact Hd|]. split; [exact Hn|].
  unfold CleanRecent.run, CleanRecent.clean, CleanRecent.getitem.
  rewrite Hl. cbn [CleanRecent.bind CleanRecent.ret CleanRecent.len CleanRecent.iter].
  rewrite (comprehension_records folders Hrec).
  cbn [CleanRecent.bind CleanRecent.ret].
  rewrite Hd at 1. now rewrite store_split.
Qed.

Lemma pruner_filters_recent_folders_witness :
  let home := CleanRecent.JDict [(CleanRecent.path, CleanRecent.JStr (str "/home/u"))] in
  let test := CleanRecent.JDict [(CleanRecent.path, CleanRecent.JStr (str "/test/path/a"))] in
  let d := [(str "favorites", CleanRecent.JList []);
            (CleanRecent.recent_folders, CleanRecent.JList [test; home; test]);
            (str "version", CleanRecent.JInt 2)] in
  exists before after,
    d = before ++ (CleanRecent.recent_folders, CleanRecent.JList [test; home; test]) :: after
    /\ CleanRecent.lookup CleanRecent.recent_folders before = None
    /\ CleanRecent.run (CleanRecent.JDict d) =
         Outcome Finished
           (Some (CleanRecent.JDict
                    (before
                     ++ (CleanRecent.recent_folders,
                         CleanRecent.JList
                           (filter (fun f => negb (CleanRecent.blocked f))
                                   [test; home; test]))
                     :: after))).
Proof.
  intros home test d.
  apply (pruner_filters_recent_folders d [test; home; test]).
  - reflexivity.
  - repeat constructor.
    + exists [(CleanRecent.path, CleanRecent.JStr (str "/test/path/a"))], (str "/test/path/a").
      split; reflexivity.
    + exists [(CleanRecent.path, CleanRecent.JStr (str "/home/u"))], (str "/home/u").
      split; reflexivity.
    + exists [(CleanRecent.path, CleanRecent.JStr (str "/test/path/a"))], (str "/test/path/a").
      split; reflexivity.
Defined.

(** C6.  The pruner is idempotent: run on a document it wrote, it writes
    the same document again, so the number of [recent_folders] entries is
    unchanged by the second run; every surviving entry is a record whose
    path does not start with [/test/path]. *)
Theorem pruner_idempotent (data data' : CleanRecent.json) :
  written (CleanRecent.run data) = Some data' ->
  CleanRecent.run data' = Outcome Finished (Some data')
  /\ length (CleanRecent.recent_of (run_on CleanRecent.run data'))
     = length (CleanRecent.recent_of data')
  /\ Forall (fun f => CleanRecent.has_path f /\ CleanRecent.blocked f = false)
            (CleanRecent.recent_of data').
Proof.
  unfold CleanRecent.run at 1.
  destruct (CleanRecent.clean data) as [e|out] eqn:E; cbn [written]; [discriminate|].
  intros H. injection H as ->.
  destruct (clean_inr _ _ E) as (d & old & folders & kept & -> & Hl & Hi & Hc & ->).
  destruct (comprehension_kept _ _ Hc) as [Hk _].
  assert (R : CleanRecent.run (CleanRecent.JDict
                (CleanRecent.store CleanRecent.recent_folders (CleanRecent.JList kept) d))
              = Outcome Finished (Some (CleanRecent.JDict
                (CleanRecent.store CleanRecent.recent_folders (CleanRecent.JList kept) d)))).
  { unfold CleanRecent.run, CleanRecent.clean, CleanRecent.getitem.
    rewrite lookup_store.
    cbn [CleanRecent.bind CleanRecent.ret CleanRecent.len CleanRecent.iter].
    rewrite (comprehension_fixed kept Hk).
    cbn [CleanRecent.bind CleanRecent.ret]. now rewrite store_store. }
  split; [exact R|]. split.
  - unfold run_on. rewrite R. reflexivity.
  - rewrite recent_of_store. apply Forall_forall. intros f Hf.
    rewrite Forall_forall in Hk. apply keeps_true. now apply Hk.
Qed.

Lemma pruner_idempotent_witness :
  let home := CleanRecent.JDict [(CleanRecent.path, CleanRecent.JStr (str "/home/u"))] in
  let test := CleanRecent.JDict [(CleanRecent.path, CleanRecent.JStr (str "/test/path/a"))] in
  let data := CleanRecent.JDict
                [(CleanRecent.recent_folders, CleanRecent.JList [test; home; test]);
                 (str "version", CleanRecent.JInt 2)] in
  let data' := CleanRecent.JDict
                [(CleanRecent.recent_folders, CleanRecent.JList [home]);
                 (str "version", CleanRecent.JInt 2)] in
  CleanRecent.run data' = Outcome Finished (Some data')
  /\ length (CleanRecent.recent_of (run_on CleanRecent.run data'))
     = length (CleanRecent.recent_of data')
  /\ Forall (fun f => CleanRecent.has_path f /\ CleanRecent.blocked f = false)
            (CleanRecent.recent_of data').
Proof.
  intros home test data data'.
  apply (pruner_idempotent data data').
  reflexivity.
Defined.

(** * Further properties *)

(** ** Lines and stripping *)

Section Lines.

Lemma count_cons_0 (c x : char) (s : text) :
  count c (x :: s) = 0 -> eqc x c = false /\ count c s = 0.
Proof. simpl. destruct (eqc x c); [discriminate | auto]. Qed.

Lemma readlines_unterminated (l : text) :
  l <> [] -> count nl l = 0 -> readlines l = [l].
Proof.
  induction l as [|c l IH]; intros Hne H0; [congruence|].
  apply count_cons_0 in H0. destruct H0 as [Hc H0].
  cbn [readlines]. rewrite Hc.
  destruct l as [|c' l]; [reflexivity|].
  rewrite IH by (auto; discriminate). reflexivity.
Qed.

Lemma readlines_complete (body rest : text) :
  count nl body = 0 ->
  readlines ((body ++ [nl]) ++ rest) = (body ++ [nl]) :: readlines rest.
Proof.
  induction body as [|c b IH]; intros H0.
  - reflexivity.
  - apply count_cons_0 in H0. destruct H0 as [Hc H0].
    change (((c :: b) ++ [nl]) ++ rest) with (c :: ((b ++ [nl]) ++ rest)).
    cbn [readlines]. rewrite Hc, (IH H0). reflexivity.
Qed.

Lemma readlines_well_cut (s : text) : well_cut (readlines s).
Proof.
  induction s as [|c s IH]; cbn [readlines]; [constructor|].
  destruct (eqc c nl) eqn:E.
  - apply eqc_eq in E. subst c. apply well_cut_cons; [|exact IH].
    exists []. split; reflexivity.
  - destruct (readlines s) as [|l ls].
    + apply well_cut_last; [discriminate | simpl; now rewrite E].
    + inversion IH as [|l0 Hne H0|l0 ls0 (body & -> & Hb) Hls]; subst.
      * apply well_cut_last; [discriminate | simpl; now rewrite E].
      * apply well_cut_cons; [|exact Hls].
        exists (c :: body). split; [reflexivity | simpl; now rewrite E].
Qed.

(** Reading back the lines that were written gives the same lines. *)
Lemma readlines_concat (ls : list text) :
  well_cut ls -> readlines (concat ls) = ls.
Proof.
  induction 1 as [|l Hne H0|l ls (body & -> & Hb) Hls IH]; [reflexivity| |].
  - simpl. rewrite app_nil_r. now apply readlines_unterminated.
  - cbn [concat]. rewrite readlines_complete by assumption. now rewrite IH.
Qed.

Lemma well_cut_remove (a : list text) (x : text) (b : list text) :
  well_cut (a ++ x :: b) -> well_cut (a ++ b).
Proof.
  induction a as [|y a IH]; simpl; intros H.
  - inversion H; subst; [constructor | assumption].
  - inversion H as [|l Hne H0 Heq|l ls Hc Hls]; subst.
    + destruct a; discriminate.
    + apply well_cut_cons; [assumption | now apply IH].
Qed.

Lemma well_cut_filter (p : text -> bool) (suf : list text) : forall pre,
  well_cut (pre ++ suf) -> well_cut (pre ++ filter p suf).
Proof.
  induction suf as [|x suf IH]; intros pre H; [exact H|].
  cbn [filter]. destruct (p x).
  - change (pre ++ x :: filter p suf) with (pre ++ [x] ++ filter p suf).
    rewrite app_assoc. apply IH. rewrite <- app_assoc. exact H.
  - apply IH. now apply well_cut_remove in H.
Qed.

Lemma well_cut_app_l (a b : list text) : well_cut (a ++ b) -> well_cut a.
Proof.
  assert (E : filter (fun _ : text => false) b = []) by (induction b; simpl; auto).
  intros H.
  pose proof (well_cut_filter (fun _ => false) b a H) as H'.
  now rewrite E, app_nil_r in H'.
Qed.

Lemma well_cut_app_r (a b : list text) : well_cut (a ++ b) -> well_cut b.
Proof.
  induction a as [|y a IH]; simpl; intros H; [exact H|].
  inversion H as [|l Hne H0 Heq|l ls Hc Hls]; subst.
  - destruct a; [|discriminate]. simpl in *. subst b. constructor.
  - now apply IH.
Qed.

(** What [lstrip] removes is blank, and what it leaves does not start with
    whitespace. *)
Lemma lstrip_shape (s : text) :
  exists ws, s = ws ++ lstrip s /\ blank ws
             /\ match lstrip s with [] => True | c :: _ => isspace c = false end.
Proof.
  induction s as [|c s (ws & E & Hws & Hh)]; simpl.
  - exists []. repeat split. constructor.
  - destruct (isspace c) eqn:Ec.
    + exists (c :: ws). split; [simpl; now rewrite <- E|].
      split; [now constructor | exact Hh].
    + exists []. repeat split; [constructor | exact Ec].
Qed.

Lemma lstrip_blank_app (ws s : text) :
  blank ws -> lstrip (ws ++ s) = lstrip s.
Proof. induction 1 as [|c ws Hc _ IH]; simpl; [reflexivity | now rewrite Hc]. Qed.

Lemma blank_rev (s : text) : blank s -> blank (rev s).
Proof. unfold blank. intros H. apply Forall_rev, H. Qed.

End Lines.

(** X1.  A line is deleted by the fixers only if it is one closing brace
    between two runs of whitespace, and every such line qualifies:
    [line.strip() == '}'] holds exactly for the lines of that shape. *)
Theorem lone_brace_line_shape (line : text) :
  is_lone line = true <->
  exists before after,
    line = before ++ [rbrace] ++ after /\ blank before /\ blank after.
Proof.
  rewrite is_lone_strip. unfold strip, rstrip. split.
  - intros H.
    destruct (lstrip_shape line) as (a & Ea & Ha & _).
    destruct (lstrip_shape (rev (lstrip line))) as (b & Eb & Hb & _).
    assert (Hr : lstrip (rev (lstrip line)) = [rbrace]).
    { apply (f_equal (@rev char)) in H. rewrite rev_involutive in H. exact H. }
    rewrite Hr in Eb.
    apply (f_equal (@rev char)) in Eb. rewrite rev_involutive, rev_app_distr in Eb.
    simpl in Eb.
    exists a, (rev b). split; [rewrite Ea at 1; now rewrite Eb|].
    split; [exact Ha | now apply blank_rev].
  - intros (a & b & -> & Ha & Hb).
    rewrite (lstrip_blank_app a _ Ha). cbn [app lstrip].
    change (isspace rbrace) with false. cbv iota.
    change (rev (rbrace :: b)) with (rev b ++ [rbrace]).
    rewrite (lstrip_blank_app (rev b) _ (blank_rev b Hb)). reflexivity.
Qed.

(** ** The brace fixers, case by case *)

Section FixerCases.

(** What the line-by-line fixer writes, by the sign of the balance. *)
Lemma analyze_cases (content : text) :
  let o := count lbrace content in
  let c := count rbrace content in
  (o = c /\ written (AnalyzeAndFix.run content) = None)
  \/ (c < o /\ written (AnalyzeAndFix.run content) = Some (content ++ closing (o - c)))
  \/ (o < c /\ written (AnalyzeAndFix.run content)
               = Some (concat (remove_surplus (c - o) (readlines content)))).
Proof.
  intros o c. unfold AnalyzeAndFix.run.
  pose proof (final_level content) as Hl. fold o c in Hl.
  set (lvl := AnalyzeAndFix.brace_level _) in *.
  destruct (lvl =? 0)%Z eqn:E0; cbn [negb written].
  - apply Z.eqb_eq in E0. left. split; [lia | reflexivity].
  - apply Z.eqb_neq in E0. right. unfold AnalyzeAndFix.fix_lines, writelines.
    destruct (lvl <? 0)%Z eqn:En.
    + apply Z.ltb_lt in En. right. split; [lia|].
      replace (Z.to_nat (- lvl)) with (c - o) by lia. reflexivity.
    + apply Z.ltb_ge in En. left. split; [lia|].
      rewrite concat_app, concat_readlines. simpl concat. rewrite app_nil_r.
      unfold closing. replace (Z.to_nat lvl) with (o - c) by lia. reflexivity.
Qed.

(** The same for the whole-file fixer. *)
Lemma fix_complete_cases (content : text) :
  let o := count lbrace content in
  let c := count rbrace content in
  (o = c /\ written (FixComplete.run content) = Some content)
  \/ (c < o /\ written (FixComplete.run content)
               = Some (content ++ [nl] ++ closing (o - c)))
  \/ (o < c /\ written (FixComplete.run content)
               = Some (join [nl] (remove_surplus (c - o) (split nl content)))).
Proof.
  intros o c. unfold FixComplete.run. fold o c. cbn [written].
  destruct (o <? c) eqn:E1.
  - apply Nat.ltb_lt in E1. right. right. auto.
  - apply Nat.ltb_ge in E1. destruct (c <? o) eqn:E2.
    + apply Nat.ltb_lt in E2. right. left. auto.
    + apply Nat.ltb_ge in E2. left. split; [lia | reflexivity].
Qed.

Lemma count_closing_l (n : nat) : count lbrace (closing n) = 0.
Proof. unfold closing. rewrite count_times. simpl. lia. Qed.

Lemma count_closing_r (n : nat) : count rbrace (closing n) = n.
Proof. unfold closing. rewrite count_times. simpl. lia. Qed.

Lemma lone_count_not_lone (l : list text) : lone_count (not_lone l) = 0.
Proof.
  unfold lone_count, not_lone. induction l as [|x l IH]; simpl; [reflexivity|].
  destruct (is_lone x) eqn:E; simpl; [exact IH | now rewrite E].
Qed.

(** Without a lone brace line the removal loops change nothing. *)
Lemma remove_surplus_no_lone (k : nat) (lines : list text) :
  lone_count lines = 0 -> remove_surplus k lines = lines.
Proof.
  intros H0. destruct (remove_surplus_spec k lines) as (pre & suf & E & Hc & Hr).
  rewrite H0, Nat.min_0_r in Hc.
  now rewrite Hr, (lone_count_0_not_lone suf Hc), <- E.
Qed.

(** After the removal, the lone brace lines it did not reach remain. *)
Lemma lone_count_remove_surplus (k : nat) (lines : list text) :
  lone_count (remove_surplus k lines) = lone_count lines - k.
Proof.
  destruct (remove_surplus_spec k lines) as (pre & suf & E & Hc & Hr).
  rewrite Hr, lone_count_app, lone_count_not_lone.
  rewrite E, lone_count_app in Hc |- *. lia.
Qed.

Lemma well_cut_remove_surplus (k : nat) (lines : list text) :
  well_cut lines -> well_cut (remove_surplus k lines).
Proof.
  intros H. destruct (remove_surplus_spec k lines) as (pre & suf & E & _ & Hr).
  rewrite Hr. apply well_cut_filter. now rewrite <- E.
Qed.

End FixerCases.

(** ** [split] and [join] *)

Section SplitJoin.

Variable sep : char.

Lemma split_no_sep (l : text) : count sep l = 0 -> split sep l = [l].
Proof.
  induction l as [|c l IH]; intros H0; [reflexivity|].
  apply count_cons_0 in H0. destruct H0 as [Hc H0].
  cbn [split]. rewrite Hc, (IH H0). reflexivity.
Qed.

Lemma split_app_sep (l rest : text) :
  count sep l = 0 -> split sep (l ++ sep :: rest) = l :: split sep rest.
Proof.
  induction l as [|c l IH]; intros H0.
  - cbn [app split]. unfold eqc. now rewrite N.eqb_refl.
  - apply count_cons_0 in H0. destruct H0 as [Hc H0].
    change ((c :: l) ++ sep :: rest) with (c :: (l ++ sep :: rest)).
    cbn [split]. rewrite Hc, (IH H0). reflexivity.
Qed.

Lemma split_lines_no_sep (s : text) :
  Forall (fun l => count sep l = 0) (split sep s).
Proof.
  induction s as [|c s IH]; cbn [split]; [repeat constructor|].
  destruct (eqc c sep) eqn:E; [now constructor|].
  destruct (split sep s) as [|l ls]; [repeat constructor; simpl; now rewrite E|].
  inversion IH; subst. constructor; [simpl; rewrite E; lia | assumption].
Qed.

(** Splitting what was joined gives the lines back. *)
Lemma split_join (ls : list text) :
  ls <> [] -> Forall (fun l => count sep l = 0) ls ->
  split sep (join [sep] ls) = ls.
Proof.
  induction ls as [|l ls IH]; intros Hne Hall; [congruence|].
  inversion Hall as [|? ? Hl Hls]; subst.
  destruct ls as [|l' ls].
  - simpl. now apply split_no_sep.
  - rewrite join_cons by discriminate.
    change (l ++ [sep] ++ join [sep] (l' :: ls))
      with (l ++ sep :: join [sep] (l' :: ls)).
    rewrite split_app_sep by assumption.
    rewrite IH by (auto; discriminate). reflexivity.
Qed.

End SplitJoin.

(** X2.  The level the line-by-line auditor ends with is the number of
    ['{'] of the whole file minus its number of ['}'], the difference the
    whole-file fixer computes; so the line-by-line fixer rewrites the file
    exactly when the two global counts differ. *)
Theorem fixers_agree_on_balance (content : text) :
  AnalyzeAndFix.brace_level (AnalyzeAndFix.analyze (readlines content))
  = (Z.of_nat (count lbrace content) - Z.of_nat (count rbrace content))%Z
  /\ (written (AnalyzeAndFix.run content) = None
      <-> count lbrace content = count rbrace content).
Proof.
  split; [apply final_level|].
  destruct (analyze_cases content) as [[E W] | [[L W] | [L W]]]; rewrite W;
    split; intros H; try discriminate; try lia; reflexivity.
Qed.

(** X3.  When closing braces are missing, the fixers only append: the
    line-by-line fixer writes the text it read followed by one ["}\n"] per
    missing brace, the whole-file fixer the text, a newline, and the same
    closing lines. *)
Theorem missing_braces_are_appended (content : text) :
  count rbrace content < count lbrace content ->
  let d := count lbrace content - count rbrace content in
  written (AnalyzeAndFix.run content) = Some (content ++ closing d)
  /\ written (FixComplete.run content) = Some (content ++ [nl] ++ closing d).
Proof.
  intros Hlt d. split.
  - destruct (analyze_cases content) as [[E W] | [[L W] | [L W]]];
      [lia | exact W | lia].
  - destruct (fix_complete_cases content) as [[E W] | [[L W] | [L W]]];
      [lia | exact W | lia].
Qed.

Lemma missing_braces_are_appended_witness :
  let content := str "a {" ++ [nl] ++ str "  b { }" ++ [nl] ++ str "  c {" in
  written (AnalyzeAndFix.run content) = Some (content ++ closing 2)
  /\ written (FixComplete.run content) = Some (content ++ [nl] ++ closing 2).
Proof.
  intros content.
  apply (missing_braces_are_appended content).
  vm_compute. lia.
Defined.

(** X4.  When closing braces are in surplus but no line is a lone closing
    brace, the removal finds nothing to delete and each fixer writes back
    exactly the text it read. *)
Theorem surplus_without_lone_line_is_kept (content : text) :
  count lbrace content < count rbrace content ->
  (lone_count (readlines content) = 0 ->
     written (AnalyzeAndFix.run content) = Some content)
  /\ (lone_count (split nl content) = 0 ->
     written (FixComplete.run content) = Some content).
Proof.
  intros Hlt. split; intros H0.
  - destruct (analyze_cases content) as [[E W] | [[L W] | [L W]]]; try lia.
    rewrite W, (remove_surplus_no_lone _ _ H0), concat_readlines. reflexivity.
  - destruct (fix_complete_cases content) as [[E W] | [[L W] | [L W]]]; try lia.
    rewrite W, (remove_surplus_no_lone _ _ H0), join_split. reflexivity.
Qed.

Lemma surplus_without_lone_line_is_kept_witness :
  let content := str "a {" ++ [nl] ++ str "} // end }" ++ [nl] in
  written (AnalyzeAndFix.run content) = Some content
  /\ written (FixComplete.run content) = Some content.
Proof.
  intros content.
  destruct (surplus_without_lone_line_is_kept content) as [Ha Hf].
  - vm_compute. lia.
  - split; [apply Ha; reflexivity | apply Hf; reflexivity].
Defined.

(** X5.  If the auditor records no error (the running depth is never
    negative), the fixer deletes nothing: the file afterwards is the text it
    read followed by one ["}\n"] per missing closing brace (none when the
    file is balanced). *)
Theorem no_error_no_deletion (content : text) :
  AnalyzeAndFix.errors (AnalyzeAndFix.analyze (readlines content)) = [] ->
  run_on AnalyzeAndFix.run content
  = content ++ closing (count lbrace content - count rbrace content).
Proof.
  intros He.
  assert (Hge : count rbrace content <= count lbrace content).
  { pose proof (final_level content) as Hl. rewrite analyze_level in Hl.
    rewrite analyze_errors in He. unfold AnalyzeAndFix.negatives in He.
    apply map_eq_nil in He.
    destruct (readlines content) as [|l ls] eqn:El; [simpl in Hl; lia|].
    set (lines := l :: ls) in *.
    assert (Hin : In (length lines) (seq 1 (length lines))).
    { apply in_seq. simpl. lia. }
    destruct (0 + depth (firstn (length lines) lines) <? 0)%Z eqn:En.
    - assert (Hf : In (length lines)
                      (filter (fun j => (0 + depth (firstn j lines) <? 0)%Z)
                              (seq 1 (length lines)))).
      { apply filter_In. auto. }
      rewrite He in Hf. destruct Hf.
    - apply Z.ltb_ge in En. rewrite firstn_all in En. lia. }
  unfold run_on, file_after.
  destruct (analyze_cases content) as [[E W] | [[L W] | [L W]]]; rewrite W.
  - rewrite E, Nat.sub_diag. unfold closing, times. simpl. now rewrite app_nil_r.
  - reflexivity.
  - lia.
Qed.

Lemma no_error_no_deletion_witness :
  let content := str "a {" ++ [nl] ++ str "  b {" ++ [nl] ++ str "  }" ++ [nl] in
  run_on AnalyzeAndFix.run content = content ++ closing 1.
Proof.
  intros content.
  apply (no_error_no_deletion content).
  reflexivity.
Defined.

(** X6.  The line-by-line fixer is idempotent: run on the file it left, it
    leaves that file as it is, whatever the first input was. *)
Theorem analyze_and_fix_idempotent (content : text) :
  run_on AnalyzeAndFix.run (run_on AnalyzeAndFix.run content)
  = run_on AnalyzeAndFix.run content.
Proof.
  assert (Hfix : forall out, written (AnalyzeAndFix.run out) = None \/
                   written (AnalyzeAndFix.run out) = Some out ->
                 run_on AnalyzeAndFix.run out = out).
  { intros out [W | W]; unfold run_on, file_after; now rewrite W. }
  destruct (analyze_cases content) as [[E W] | [[L W] | [L W]]].
  - rewrite (Hfix content) by auto. apply Hfix. auto.
  - unfold run_on at 2 3. unfold file_after. rewrite W.
    set (out := content ++ closing _).
    assert (Hb : count lbrace out = count rbrace out).
    { unfold out. rewrite !count_app, count_closing_l, count_closing_r. lia. }
    apply Hfix.
    destruct (analyze_cases out) as [[E' W'] | [[L' W'] | [L' W']]];
      [now left | lia | lia].
  - unfold run_on at 2 3. unfold file_after. rewrite W.
    set (k := count rbrace content - count lbrace content) in *.
    set (lines' := remove_surplus k (readlines content)).
    assert (Hw : well_cut lines')
      by (apply well_cut_remove_surplus, readlines_well_cut).
    assert (Hr : readlines (concat lines') = lines') by now apply readlines_concat.
    destruct (remove_surplus_counts k (readlines content)) as [Ho Hc].
    fold lines' in Ho, Hc. rewrite !count_readlines in Ho, Hc.
    pose proof (lone_count_remove_surplus k (readlines content)) as Hn.
    fold lines' in Hn.
    apply Hfix.
    destruct (analyze_cases (concat lines')) as [[E' W'] | [[L' W'] | [L' W']]];
      [now left | lia |].
    right. rewrite W', Hr. rewrite remove_surplus_no_lone; [reflexivity | lia].
Qed.

(** X7.  The whole-file fixer is idempotent as well: a second run writes
    back the file the first run left. *)
Theorem fix_complete_idempotent (content : text) :
  run_on FixComplete.run (run_on FixComplete.run content)
  = run_on FixComplete.run content.
Proof.
  assert (Hfix : forall out, written (FixComplete.run out) = Some out ->
                 run_on FixComplete.run out = out).
  { intros out W. unfold run_on, file_after. now rewrite W. }
  destruct (fix_complete_cases content) as [[E W] | [[L W] | [L W]]].
  - rewrite (Hfix content) by auto. apply Hfix. auto.
  - unfold run_on at 2 3. unfold file_after. rewrite W.
    set (out := content ++ [nl] ++ closing _).
    assert (Hb : count lbrace out = count rbrace out).
    { unfold out. rewrite !count_app, count_closing_l, count_closing_r.
      change (count lbrace [nl]) with 0. change (count rbrace [nl]) with 0. lia. }
    apply Hfix.
    destruct (fix_complete_cases out) as [[E' W'] | [[L' W'] | [L' W']]];
      [exact W' | lia | lia].
  - unfold run_on at 2 3. unfold file_after. rewrite W.
    set (k := count rbrace content - count lbrace content) in *.
    set (lines' := remove_surplus k (split nl content)).
    destruct (remove_surplus_counts k (split nl content)) as [Ho Hc].
    fold lines' in Ho, Hc. rewrite !count_split in Ho, Hc by reflexivity.
    rewrite <- (count_join lbrace nl) in Ho by reflexivity.
    rewrite <- (count_join rbrace nl) in Hc by reflexivity.
    pose proof (lone_count_remove_surplus k (split nl content)) as Hn.
    fold lines' in Hn.
    apply Hfix.
    destruct (fix_complete_cases (join [nl] lines')) as [[E' W'] | [[L' W'] | [L' W']]];
      [exact W' | lia |].
    assert (Hne : lines' <> []).
    { intros E0. rewrite E0 in L'. simpl in L'. lia. }
    assert (Hns : Forall (fun l => count nl l = 0) lines').
    { unfold lines'.
      destruct (remove_surplus_spec k (split nl content)) as (pre & suf & E & _ & Hr).
      rewrite Hr. pose proof (split_lines_no_sep nl content) as Hall.
      rewrite E in Hall. apply Forall_app in Hall. destruct Hall as [Hp Hs].
      apply Forall_app. split; [exact Hp|].
      unfold not_lone. apply Forall_forall. intros x Hx.
      apply filter_In in Hx. rewrite Forall_forall in Hs. now apply Hs. }
    rewrite W', (split_join nl lines' Hne Hns).
    rewrite remove_surplus_no_lone; [reflexivity | lia].
Qed.

(** ** The rebuilder: what a successful run writes *)

Section RebuilderRuns.
Import RebuildFavoritesSection.

Lemma depth_app (a b : list text) : (depth (a ++ b) = depth a + depth b)%Z.
Proof. induction a as [|l a IH]; simpl; [reflexivity | rewrite IH; lia]. Qed.

(** A run that writes found both indices, and conversely. *)
Lemma rebuild_written (lines : list text) (w : text) :
  written (rebuild lines) = Some w <->
  exists s e, find_start 0 lines = Some s
              /\ find_end s s 0 (skipn s lines) = Some e
              /\ w = writelines (firstn s lines ++ [new_section] ++ skipn (S e) lines).
Proof.
  unfold rebuild.
  destruct (find_start 0 lines) as [s|] eqn:Es; cbn [written].
  - destruct (find_end s s 0 (skipn s lines)) as [e|] eqn:Ee; cbn [written].
    + split.
      * intros H. injection H as <-. exists s, e. repeat split. exact Ee.
      * intros (s' & e' & Hs & He & ->). injection Hs as <-.
        rewrite Ee in He. injection He as <-. reflexivity.
    + split; [discriminate|]. intros (s' & e' & Hs & He & _).
      injection Hs as <-. rewrite Ee in He. discriminate.
  - split; [discriminate|]. intros (s' & e' & Hs & _). discriminate.
Qed.

(** The two indices of a successful search, in the terms of the file. *)
Lemma found_indices (lines : list text) (s e : nat) :
  find_start 0 lines = Some s ->
  find_end s s 0 (skipn s lines) = Some e ->
  s < e < length lines
  /\ contains marker (nth s lines []) = true
  /\ (forall j, j < s -> contains marker (nth j lines []) = false)
  /\ depth_between s e lines = 0%Z
  /\ (forall i, s < i < e -> depth_between s i lines <> 0%Z).
Proof.
  intros Hs He.
  apply find_start_some in Hs. destruct Hs as (j & -> & Hj & Hm & Hfirst).
  apply find_end_some in He.
  destruct He as (d & -> & Hd & Hz & Hlt & Hmin).
  rewrite length_skipn in Hd. cbn [Nat.add] in *.
  split; [lia|]. split; [exact Hm|]. split; [exact Hfirst|].
  unfold depth_between. split.
  - replace (S (j + d) - j) with (S d) by lia. lia.
  - intros i Hi Hzero. apply (Hmin (i - j)); [lia|].
    replace (S i - j) with (S (i - j)) in Hzero by lia. split; lia.
Qed.

Lemma new_section_depth : depth [new_section] = 0%Z.
Proof. vm_compute. reflexivity. Qed.

End RebuilderRuns.

(** X8.  Whenever the rebuilder writes, it found the first line [s] that
    holds the marker and the first later line [e] at which the brace count
    taken from line [s] is back to zero, and what it writes is the file with
    lines [s] to [e] replaced by the block: at least two lines are replaced,
    and no line outside them is touched. *)
Theorem rebuild_writes_only_a_replaced_section (lines : list text) (w : text) :
  written (RebuildFavoritesSection.rebuild lines) = Some w ->
  exists s e,
    s < e < length lines
    /\ contains RebuildFavoritesSection.marker (nth s lines []) = true
    /\ (forall j, j < s ->
          contains RebuildFavoritesSection.marker (nth j lines []) = false)
    /\ RebuildFavoritesSection.depth_between s e lines = 0%Z
    /\ (forall i, s < i < e -> RebuildFavoritesSection.depth_between s i lines <> 0%Z)
    /\ w = writelines (firstn s lines ++ [RebuildFavoritesSection.new_section]
                       ++ skipn (S e) lines).
Proof.
  intros H. apply rebuild_written in H. destruct H as (s & e & Hs & He & ->).
  exists s, e.
  destruct (found_indices lines s e Hs He) as (H1 & H2 & H3 & H4 & H5).
  repeat split; auto; lia.
Qed.

Lemma rebuild_writes_only_a_replaced_section_witness :
  let lines :=
    [str "x {" ++ [nl];
     str "  for fav in root.favorites : Rectangle { }" ++ [nl];
     str "  y" ++ [nl];
     str "}" ++ [nl]] in
  exists s e,
    s < e < length lines
    /\ contains RebuildFavoritesSection.marker (nth s lines []) = true
    /\ (forall j, j < s ->
          contains RebuildFavoritesSection.marker (nth j lines []) = false)
    /\ RebuildFavoritesSection.depth_between s e lines = 0%Z
    /\ (forall i, s < i < e -> RebuildFavoritesSection.depth_between s i lines <> 0%Z)
    /\ writelines ([str "x {" ++ [nl]] ++ [RebuildFavoritesSection.new_section]
                   ++ [str "}" ++ [nl]])
       = writelines (firstn s lines ++ [RebuildFavoritesSection.new_section]
                     ++ skipn (S e) lines).
Proof.
  intros lines.
  apply (rebuild_writes_only_a_replaced_section lines).
  reflexivity.
Defined.

(** X9.  The rebuilder keeps the brace balance of the file: the section it
    replaces and the block it puts in both have as many ['{'] as ['}'], so
    the difference between the two counts is the same before and after. *)
Theorem rebuild_preserves_balance (content w : text) :
  written (RebuildFavoritesSection.run content) = Some w ->
  (Z.of_nat (count lbrace w) - Z.of_nat (count rbrace w)
   = Z.of_nat (count lbrace content) - Z.of_nat (count rbrace content))%Z.
Proof.
  unfold RebuildFavoritesSection.run. intros H.
  apply rebuild_written in H. destruct H as (s & e & Hs & He & ->).
  destruct (found_indices _ s e Hs He) as (Hse & _ & _ & Hz & _).
  unfold RebuildFavoritesSection.depth_between in Hz.
  set (lines := readlines content) in *.
  assert (Hd : depth lines
               = (Z.of_nat (count lbrace content) - Z.of_nat (count rbrace content))%Z).
  { unfold lines. now rewrite depth_concat, concat_readlines. }
  assert (Hsplit : (depth lines
                    = depth (firstn s lines)
                      + (depth (firstn (S e - s) (skipn s lines))
                         + depth (skipn (S e) lines)))%Z).
  { rewrite <- (firstn_skipn s lines) at 1. rewrite depth_app. f_equal.
    rewrite <- (firstn_skipn (S e - s) (skipn s lines)) at 1.
    rewrite depth_app, skipn_skipn.
    replace (S e - s + s) with (S e) by lia. reflexivity. }
  rewrite <- Hd. unfold writelines. rewrite <- depth_concat.
  rewrite !depth_app, new_section_depth. lia.
Qed.

Lemma rebuild_preserves_balance_witness :
  let content :=
    str "x {" ++ [nl] ++ str "  for fav in root.favorites : Rectangle {" ++ [nl]
    ++ str "  }" ++ [nl] in
  let w := str "x {" ++ [nl] ++ RebuildFavoritesSection.new_section in
  (Z.of_nat (count lbrace w) - Z.of_nat (count rbrace w)
   = Z.of_nat (count lbrace content) - Z.of_nat (count rbrace content))%Z.
Proof.
  intros content w.
  apply (rebuild_preserves_balance content w).
  vm_compute. reflexivity.
Defined.

(** ** The rebuilder run twice *)

Section RebuilderTwice.
Import RebuildFavoritesSection.

Lemma firstn_app_exact {A} (a b : list A) (n : nat) :
  length a = n -> firstn n (a ++ b) = a.
Proof.
  revert n. induction a as [|x a IH]; intros n <-; simpl; [reflexivity|].
  now rewrite IH.
Qed.

Lemma firstn_app_within {A} (a b : list A) (n : nat) :
  n <= length a -> firstn n (a ++ b) = firstn n a.
Proof.
  revert n. induction a as [|x a IH]; intros [|n] Hn; simpl in *; try lia; auto.
  rewrite IH by lia. reflexivity.
Qed.

Lemma skipn_app_plus {A} (a b : list A) (n m : nat) :
  length a = n -> skipn (n + m) (a ++ b) = skipn m b.
Proof.
  revert n. induction a as [|x a IH]; intros n <-; simpl; [reflexivity|].
  now apply IH.
Qed.

Lemma nth_app_plus {A} (a b : list A) (n m : nat) (d : A) :
  length a = n -> nth (n + m) (a ++ b) d = nth m b d.
Proof.
  revert n. induction a as [|x a IH]; intros n <-; simpl; [reflexivity|].
  now apply IH.
Qed.

Lemma nth_app_within {A} (a b : list A) (n : nat) (d : A) :
  n < length a -> nth n (a ++ b) d = nth n a d.
Proof.
  revert n. induction a as [|x a IH]; intros [|n] Hn; simpl in *; try lia; auto.
  apply IH. lia.
Qed.

Lemma nth_firstn_within {A} (l : list A) (n j : nat) (d : A) :
  j < n -> nth j (firstn n l) d = nth j l d.
Proof.
  revert n j. induction l as [|x l IH]; intros [|n] [|j] Hj; simpl; try lia; auto.
  apply IH. lia.
Qed.

(** A text that ends with a newline is cut apart from what follows it. *)
Lemma readlines_app_nl (a rest : text) :
  readlines ((a ++ [nl]) ++ rest) = readlines (a ++ [nl]) ++ readlines rest.
Proof.
  induction a as [|c a IH]; [reflexivity|].
  change (((c :: a) ++ [nl]) ++ rest) with (c :: ((a ++ [nl]) ++ rest)).
  change ((c :: a) ++ [nl]) with (c :: (a ++ [nl])).
  cbn [readlines]. rewrite IH.
  destruct (eqc c nl); [reflexivity|].
  destruct (readlines (a ++ [nl])) as [|l ls] eqn:E; [|reflexivity].
  exfalso. pose proof (concat_readlines (a ++ [nl])) as Hc.
  rewrite E in Hc. simpl in Hc. destruct a; discriminate.
Qed.

Lemma readlines_concat_complete (ls : list text) (rest : text) :
  Forall complete ls -> readlines (concat ls ++ rest) = ls ++ readlines rest.
Proof.
  induction 1 as [|l ls (body & -> & Hb) _ IH]; [reflexivity|].
  cbn [concat]. rewrite <- app_assoc, readlines_complete by assumption.
  now rewrite IH.
Qed.

Lemma well_cut_prefix_complete (a : list text) (x : text) (b : list text) :
  well_cut (a ++ x :: b) -> Forall complete a.
Proof.
  induction a as [|y a IH]; simpl; intros H; [constructor|].
  inversion H as [|l Hne H0 Heq|l ls Hc Hls]; subst.
  - destruct a; discriminate.
  - constructor; [assumption | now apply IH].
Qed.

Lemma new_section_lines : block_lines_ok (readlines new_section) = true.
Proof. vm_compute. reflexivity. Qed.

Lemma new_section_ends_with_newline :
  new_section = removelast new_section ++ [nl].
Proof. vm_compute. reflexivity. Qed.

End RebuilderTwice.

Section RebuilderSecondRun.
Import RebuildFavoritesSection.

(** The lines the second run reads: those before the section, the lines of
    the block, those after the section. *)
Lemma reread_lines (lines : list text) (s e : nat) :
  well_cut lines -> s < e < length lines ->
  readlines (writelines (firstn s lines ++ [new_section] ++ skipn (S e) lines))
  = firstn s lines ++ readlines new_section ++ skipn (S e) lines.
Proof.
  intros Hw Hse. unfold writelines. rewrite concat_app. cbn [concat app].
  assert (HA : Forall complete (firstn s lines)).
  { destruct (skipn s lines) as [|x b] eqn:E.
    - apply (f_equal (@length _)) in E. rewrite length_skipn in E. simpl in E. lia.
    - apply (well_cut_prefix_complete _ x b). rewrite <- E, firstn_skipn. exact Hw. }
  assert (HC : well_cut (skipn (S e) lines)).
  { apply (well_cut_app_r (firstn (S e) lines)). now rewrite firstn_skipn. }
  rewrite readlines_concat_complete by exact HA. f_equal.
  rewrite new_section_ends_with_newline at 1.
  rewrite readlines_app_nl, <- new_section_ends_with_newline.
  now rewrite readlines_concat.
Qed.

(** On such lines the rebuilder finds the block it wrote and replaces it by
    itself. *)
Lemma rebuild_block_again (A C : list text) :
  (forall j, j < length A -> contains marker (nth j A []) = false) ->
  rebuild (A ++ readlines new_section ++ C)
  = Outcome Finished (Some (writelines (A ++ [new_section] ++ C))).
Proof.
  intros HA. pose proof new_section_lines as Hok. unfold block_lines_ok in Hok.
  remember (readlines new_section) as NS eqn:ENS. clear ENS.
  apply andb_true_iff in Hok. destruct Hok as [Hok Hall].
  apply andb_true_iff in Hok. destruct Hok as [Hok Hd].
  apply andb_true_iff in Hok. destruct Hok as [Hlen Hm].
  apply Nat.eqb_eq in Hlen. apply Z.eqb_eq in Hd.
  assert (Hs : find_start 0 (A ++ NS ++ C) = Some (length A)).
  { apply find_start_some. exists (length A). split; [reflexivity|].
    split; [rewrite !length_app; lia|]. split.
    - replace (length A) with (length A + 0) at 1 by lia.
      rewrite nth_app_plus by reflexivity.
      rewrite nth_app_within by lia. exact Hm.
    - intros j Hj. rewrite nth_app_within by lia. now apply HA. }
  assert (Hskip : skipn (length A) (A ++ NS ++ C) = NS ++ C).
  { replace (length A) with (length A + 0) at 1 by lia.
    now rewrite skipn_app_plus. }
  assert (He : find_end (length A) (length A) 0 (NS ++ C) = Some (length A + 67)).
  { apply find_end_some. exists 67. split; [reflexivity|].
    split; [rewrite length_app; lia|]. split.
    - rewrite firstn_app_exact by exact Hlen. lia.
    - split; [lia|]. intros j Hj [Hz _].
      rewrite firstn_app_within in Hz by lia.
      rewrite forallb_forall in Hall.
      specialize (Hall j ltac:(apply in_seq; lia)).
      apply negb_true_iff, Z.eqb_neq in Hall. lia. }
  unfold rebuild. rewrite Hs, Hskip, He.
  rewrite firstn_app_exact by reflexivity.
  replace (S (length A + 67)) with (length A + 68) by lia.
  rewrite skipn_app_plus by reflexivity.
  replace 68 with (68 + 0) by lia. rewrite skipn_app_plus by exact Hlen.
  reflexivity.
Qed.

End RebuilderSecondRun.

(** X10.  The rebuilder is idempotent: run on the file it left (rebuilt, or
    untouched after [exit(1)]), it leaves that file as it is.  After a
    rebuild the second run finds the block the first one wrote, from its
    first line to its last, and replaces it by itself. *)
Theorem rebuild_idempotent (content : text) :
  run_on RebuildFavoritesSection.run (run_on RebuildFavoritesSection.run content)
  = run_on RebuildFavoritesSection.run content.
Proof.
  assert (Hfix : forall out,
            written (RebuildFavoritesSection.run out) = None \/
            written (RebuildFavoritesSection.run out) = Some out ->
            run_on RebuildFavoritesSection.run out = out).
  { intros out [W | W]; unfold run_on, file_after; now rewrite W. }
  destruct (written (RebuildFavoritesSection.run content)) as [w|] eqn:W.
  - assert (R : run_on RebuildFavoritesSection.run content = w).
    { unfold run_on, file_after. now rewrite W. }
    rewrite R. apply Hfix. right.
    unfold RebuildFavoritesSection.run in W. apply rebuild_written in W.
    destruct W as (s & e & Hs & He & ->).
    destruct (found_indices _ s e Hs He) as (Hse & _ & Hfirst & _ & _).
    unfold RebuildFavoritesSection.run.
    rewrite reread_lines by (auto using readlines_well_cut).
    rewrite rebuild_block_again; [reflexivity|].
    intros j Hj. rewrite length_firstn in Hj.
    rewrite nth_firstn_within by lia. apply Hfirst. lia.
  - rewrite (Hfix content) by auto. apply Hfix. auto.
Qed.

(** ** Matches and what [re.sub] does with them *)

Section Matches.
Import Re.

Lemma literal_app (t : text) : forall s s',
  literal t s = Some s' -> s = t ++ s'.
Proof.
  induction t as [|x t IH]; intros [|y s] s'; simpl; try discriminate.
  - intros H. now injection H as <-.
  - intros H. now injection H as <-.
  - destruct (eqc x y) eqn:E; [|discriminate].
    apply eqc_eq in E. subst y. intros H. now rewrite (IH _ _ H).
Qed.

Lemma literal_startswith (t s s' : text) :
  literal t s = Some s' -> startswith s t = true.
Proof.
  revert s. induction t as [|x t IH]; intros [|y s]; simpl; try discriminate; auto.
  destruct (eqc x y); [|discriminate]. intros H. simpl. now apply IH.
Qed.

Lemma lazy_star_calls (cls : char -> bool) (k : cont) (g : groups) (res : text * groups) :
  forall s, lazy_star cls k g s = Some res ->
  exists m s', s = m ++ s' /\ k s' g = Some res.
Proof.
  induction s as [|c s IH]; simpl.
  - destruct (k [] g) as [r|] eqn:E; [|discriminate].
    intros H. injection H as ->. now exists [], [].
  - destruct (k (c :: s) g) as [r|] eqn:E.
    + intros H. injection H as ->. now exists [], (c :: s).
    + destruct (cls c); [|discriminate]. intros H.
      destruct (IH H) as (m & s' & -> & Hk). now exists (c :: m), s'.
Qed.

Lemma greedy_star_calls (cls : char -> bool) (k : cont) (g : groups) (res : text * groups) :
  forall s, greedy_star cls k g s = Some res ->
  exists m s', s = m ++ s' /\ k s' g = Some res.
Proof.
  induction s as [|c s IH]; simpl.
  - intros H. now exists [], [].
  - destruct (cls c); [|intros H; now exists [], (c :: s)].
    destruct (greedy_star cls k g s) as [r|] eqn:E.
    + intros H. injection H as ->.
      destruct (IH eq_refl) as (m & s' & -> & Hk). now exists (c :: m), s'.
    + intros H. now exists [], (c :: s).
Qed.

(** A pattern without groups that matches has read some text [m] and handed
    what is left, with the groups it was given, to what follows it. *)
Lemma plain_calls (r : regex) : plain r = true ->
  forall s g k res, run r s g k = Some res ->
  exists m s', s = m ++ s' /\ k s' g = Some res.
Proof.
  induction r as [t|cls|cls|r1 IH1 r2 IH2|n r1 IH1|r1 IH1];
    cbn [plain]; intros Hp s g k res; cbn [run]; try discriminate.
  - destruct (literal t s) as [s'|] eqn:E; [|discriminate].
    intros H. exists t, s'. split; [now apply literal_app | exact H].
  - apply lazy_star_calls.
  - destruct s as [|c s]; [discriminate|]. destruct (cls c); [|discriminate].
    intros H. destruct (greedy_star_calls _ _ _ _ _ H) as (m & s' & -> & Hk).
    now exists (c :: m), s'.
  - apply andb_true_iff in Hp. destruct Hp as [Hp1 Hp2]. intros H.
    destruct (IH1 Hp1 _ _ _ _ H) as (m1 & s1 & -> & H1).
    destruct (IH2 Hp2 _ _ _ _ H1) as (m2 & s2 & -> & H2).
    exists (m1 ++ m2), s2. split; [now rewrite app_assoc | exact H2].
  - destruct (run r1 s g (fun s' g' => Some (s', g'))) as [[x g']|] eqn:E;
      [|discriminate].
    destruct (IH1 Hp _ _ _ _ E) as (m & s' & _ & Hk). injection Hk as _ <-.
    intros H. now exists [], s.
Qed.

Lemma run_cat (r1 r2 : regex) (s : text) (g : groups) (k : cont) :
  run (Cat r1 r2) s g k = run r1 s g (fun s' g' => run r2 s' g' k).
Proof. reflexivity. Qed.

(** The same for a group around such a pattern: the text read is what the
    group records. *)
Lemma group_calls (n : nat) (r : regex) : plain r = true ->
  forall s g k res, run (Group n r) s g k = Some res ->
  exists m s', s = m ++ s' /\ k s' ((n, m) :: g) = Some res.
Proof.
  intros Hp s g k res. cbn [run]. intros H.
  destruct (plain_calls r Hp _ _ _ _ H) as (m & s' & -> & Hk).
  exists m, s'. split; [reflexivity|].
  rewrite length_app, Nat.add_sub in Hk.
  now rewrite firstn_app_exact in Hk by reflexivity.
Qed.

(** Stepping over the characters of a match. *)
Lemma sub_from_skip (r : regex) (repl : groups -> text) (m rest : text) :
  sub_from r repl (length m) (m ++ rest) = sub r repl rest.
Proof. induction m as [|c m IH]; [reflexivity | exact IH]. Qed.

(** [re.sub] up to the first match: the text before it is copied, the match
    is replaced, and the scan goes on in the text after it. *)
Lemma sub_first_match (r : regex) (repl : groups -> text)
    (s at_ rest : text) (g : groups) :
  consumes r = true ->
  search r s = Some (at_, (rest, g)) ->
  forall matched, at_ = matched ++ rest ->
  exists pre, s = pre ++ at_
              /\ sub r repl s = pre ++ repl g ++ sub r repl rest.
Proof.
  intros Hc. unfold sub. induction s as [|c s IH]; cbn [search sub_from].
  - destruct (match_here r []) as [[rest' g']|] eqn:E; [|discriminate].
    apply (match_here_consumes r _ _ _ Hc) in E. simpl in E. lia.
  - destruct (match_here r (c :: s)) as [[rest' g']|] eqn:E.
    + intros H matched Hm. injection H as <- <- <-.
      exists []. split; [reflexivity|]. cbn [app]. f_equal.
      pose proof (match_here_consumes r _ _ _ Hc E) as Hlt.
      destruct matched as [|x matched]; [simpl in Hm; subst; lia|].
      injection Hm as <- ->.
      cbn [length]. rewrite length_app.
      replace (S (length matched + length rest') - length rest')
        with (S (length matched)) by lia.
      apply sub_from_skip.
    + intros H matched Hm. destruct (IH H matched Hm) as (pre & -> & Hs).
      exists (c :: pre). split; [reflexivity|]. cbn [app]. now rewrite Hs.
Qed.

Lemma search_match (r : regex) (s at_ : text) (m : text * groups) :
  search r s = Some (at_, m) -> match_here r at_ = Some m.
Proof.
  induction s as [|c s IH]; cbn [search].
  - destruct (match_here r []) eqn:E; [|discriminate].
    intros H. now injection H as <- <-.
  - destruct (match_here r (c :: s)) eqn:E.
    + intros H. now injection H as <- <-.
    + exact IH.
Qed.

(** The shape of a match of each pattern. *)
Lemma fix_final_match (s rest : text) (g : groups) :
  match_here FixFinal.pattern s = Some (rest, g) ->
  exists matched, s = matched ++ rest /\ g = []
                  /\ startswith s RebuildFavoritesSection.marker = true.
Proof.
  intros H. pose proof H as H'. unfold match_here in H.
  apply (plain_calls FixFinal.pattern eq_refl) in H.
  destruct H as (m & s' & -> & Hk). injection Hk as <- <-.
  exists m. repeat split.
  unfold match_here, FixFinal.pattern in H'. cbn [run] in H'.
  destruct (literal _ (m ++ s')) eqn:E; [|discriminate].
  now apply literal_startswith in E.
Qed.

Lemma fix_favorites_match (s rest : text) (g : groups) :
  match_here FixFavorites.pattern s = Some (rest, g) ->
  exists head old close,
    s = head ++ old ++ close ++ rest
    /\ g = [(3, close); (2, old); (1, head)]
    /\ startswith s RebuildFavoritesSection.marker = true.
Proof.
  intros H. pose proof H as H'. unfold match_here, FixFavorites.pattern in H.
  rewrite run_cat in H.
  eapply group_calls in H; [|reflexivity].
  destruct H as (m1 & s1 & -> & H). cbv beta in H. rewrite run_cat in H.
  eapply group_calls in H; [|reflexivity].
  destruct H as (m2 & s2 & -> & H). cbv beta in H.
  eapply group_calls in H; [|reflexivity].
  destruct H as (m3 & s3 & -> & H). injection H as <- <-.
  exists m1, m2, m3. repeat split.
  unfold match_here, FixFavorites.pattern in H'. cbn [run] in H'.
  destruct (literal _ (m1 ++ m2 ++ m3 ++ s3)) eqn:E; [|discriminate].
  now apply literal_startswith in E.
Qed.

End Matches.

(** X11.  When the pattern of fix_final.py matches, the script keeps the
    text before the first match as it is, writes the new block in place of
    the match (which is never empty and starts with the loop header), and
    goes on substituting only in the text after the match. *)
Theorem fix_final_replaces_first_match (content at_ rest : text) (g : Re.groups) :
  Re.search FixFinal.pattern content = Some (at_, (rest, g)) ->
  exists pre matched,
    content = pre ++ matched ++ rest
    /\ matched <> []
    /\ startswith (matched ++ rest) RebuildFavoritesSection.marker = true
    /\ written (FixFinal.run content)
       = Some (pre ++ FixFinal.new_favorites_section
               ++ Re.sub FixFinal.pattern (fun _ => FixFinal.new_favorites_section) rest).
Proof.
  intros H. pose proof (search_match _ _ _ _ H) as Hm.
  destruct (fix_final_match _ _ _ Hm) as (matched & E & -> & Hst).
  destruct (sub_first_match FixFinal.pattern (fun _ => FixFinal.new_favorites_section)
              content at_ rest [] eq_refl H matched E) as (pre & -> & Hs).
  exists pre, matched. subst at_. split; [reflexivity|]. split.
  - intros ->. apply (match_here_consumes FixFinal.pattern _ _ _ eq_refl) in Hm.
    simpl in Hm. lia.
  - split; [exact Hst|]. unfold FixFinal.run. cbn [written]. now rewrite Hs.
Qed.

Lemma fix_final_replaces_first_match_witness :
  let after := [nl] ++ str "  }" ++ [nl] ++ [nl] ++ str "  // S" ++ [233%N]
               ++ str "parateur" ++ [nl] in
  let section := str "for fav in root.favorites : Rectangle { old }" in
  let content := str "a" ++ [nl] ++ str "  " ++ section ++ after in
  exists pre matched,
    content = pre ++ matched ++ after
    /\ matched <> []
    /\ startswith (matched ++ after) RebuildFavoritesSection.marker = true
    /\ written (FixFinal.run content)
       = Some (pre ++ FixFinal.new_favorites_section
               ++ Re.sub FixFinal.pattern (fun _ => FixFinal.new_favorites_section) after).
Proof.
  intros after section content.
  apply (fix_final_replaces_first_match content (section ++ after) after []).
  vm_compute. reflexivity.
Defined.

(** X12.  When the pattern of fix_favorites.py matches, only the text of
    its second group changes: the script keeps the text before the first
    match, the header (group 1) and the closing braces (group 3) of the
    match, puts the new body between them, and goes on substituting in the
    text after the match. *)
Theorem fix_favorites_replaces_the_body (content at_ rest : text) (g : Re.groups) :
  Re.search FixFavorites.pattern content = Some (at_, (rest, g)) ->
  exists pre head old close,
    content = pre ++ head ++ old ++ close ++ rest
    /\ g = [(3, close); (2, old); (1, head)]
    /\ startswith (head ++ old ++ close ++ rest) RebuildFavoritesSection.marker = true
    /\ written (FixFavorites.run content)
       = Some (pre ++ head ++ FixFavorites.replacement_body ++ close
               ++ Re.sub FixFavorites.pattern FixFavorites.replacement rest).
Proof.
  intros H. pose proof (search_match _ _ _ _ H) as Hm.
  destruct (fix_favorites_match _ _ _ Hm) as (head & old & close & E & -> & Hst).
  destruct (sub_first_match FixFavorites.pattern FixFavorites.replacement
              content at_ rest _ eq_refl H (head ++ old ++ close)) as (pre & -> & Hs).
  { now rewrite <- !app_assoc. }
  exists pre, head, old, close. subst at_. split; [reflexivity|].
  split; [reflexivity|]. split; [exact Hst|].
  unfold FixFavorites.run. cbn [written]. rewrite Hs.
  unfold FixFavorites.replacement at 1. cbn [Re.group Nat.eqb].
  now rewrite <- !app_assoc.
Qed.

Lemma fix_favorites_replaces_the_body_witness :
  let head := str "for fav in root.favorites : Rectangle {" ++ [nl]
              ++ str "  HorizontalLayout {" in
  let old := str " old " in
  let close := [nl] ++ str "  }" ++ [nl] ++ str " }" in
  let rest := str " y" in
  let content := str "x " ++ head ++ old ++ close ++ rest in
  exists pre head' old' close',
    content = pre ++ head' ++ old' ++ close' ++ rest
    /\ [(3, close); (2, old); (1, head)] = [(3, close'); (2, old'); (1, head')]
    /\ startswith (head' ++ old' ++ close' ++ rest) RebuildFavoritesSection.marker = true
    /\ written (FixFavorites.run content)
       = Some (pre ++ head' ++ FixFavorites.replacement_body ++ close'
               ++ Re.sub FixFavorites.pattern FixFavorites.replacement rest).
Proof.
  intros head old close rest content.
  apply (fix_favorites_replaces_the_body content (head ++ old ++ close ++ rest) rest
           [(3, close); (2, old); (1, head)]).
  vm_compute. reflexivity.
Defined.

(** ** A file without the loop header *)

Section NoMarker.

Lemma startswith_app (a b m : text) :
  startswith a m = true -> startswith (a ++ b) m = true.
Proof.
  revert a. induction m as [|x m IH]; intros [|y a]; simpl; try discriminate; auto.
  - intros _. destruct b; reflexivity.
  - intros H. apply andb_true_iff in H. destruct H as [-> H]. simpl. now apply IH.
Qed.

Lemma contains_start (m hay : text) :
  startswith hay m = true -> contains m hay = true.
Proof. intros H. destruct hay; cbn [contains]; now rewrite H. Qed.

Lemma contains_app_r (m a b : text) :
  contains m b = true -> contains m (a ++ b) = true.
Proof.
  intros H. induction a as [|x a IH]; [exact H|].
  cbn [app contains]. rewrite IH. apply orb_true_r.
Qed.

Lemma contains_app_l (m a b : text) :
  contains m a = true -> contains m (a ++ b) = true.
Proof.
  induction a as [|x a IH]; intros H.
  - apply contains_start. cbn [contains] in H. rewrite orb_false_r in H.
    now apply (startswith_app [] b).
  - cbn [contains] in H. apply orb_true_iff in H. destruct H as [H | H].
    + apply contains_start. now apply startswith_app.
    + cbn [app contains]. rewrite (IH H). apply orb_true_r.
Qed.

Lemma contains_line (m : text) (lines : list text) (l : text) :
  In l lines -> contains m l = true -> contains m (concat lines) = true.
Proof.
  intros Hin H. apply in_split in Hin. destruct Hin as (l1 & l2 & ->).
  rewrite concat_app. cbn [concat]. apply contains_app_r, contains_app_l, H.
Qed.

Lemma search_needs_start (r : Re.regex) (m : text) :
  (forall s rest g, Re.match_here r s = Some (rest, g) -> startswith s m = true) ->
  forall s, contains m s = false -> Re.search r s = None.
Proof.
  intros Hr s. induction s as [|c s IH]; cbn [contains Re.search]; intros H;
    apply orb_false_iff in H; destruct H as [Hst Hc].
  - destruct (Re.match_here r []) as [[rest g]|] eqn:E; [|reflexivity].
    apply Hr in E. congruence.
  - destruct (Re.match_here r (c :: s)) as [[rest g]|] eqn:E; [|now apply IH].
    apply Hr in E. congruence.
Qed.

End NoMarker.

(** X13.  On a file that nowhere holds the text
    [for fav in root.favorites : Rectangle {], none of the three section
    scripts changes anything: the two regex-based ones write back the
    content they read, and the brace-depth-based one leaves through
    [exit(1)] without writing. *)
Theorem file_without_marker_is_left_alone (content : text) :
  contains RebuildFavoritesSection.marker content = false ->
  FixFavorites.run content = Outcome Finished (Some content)
  /\ FixFinal.run content = Outcome Finished (Some content)
  /\ RebuildFavoritesSection.run content = Outcome (Exited 1) None.
Proof.
  intros H. split; [|split].
  - unfold FixFavorites.run. rewrite sub_no_match; [reflexivity|].
    apply (search_needs_start _ RebuildFavoritesSection.marker); [|exact H].
    intros s rest g Hm.
    destruct (fix_favorites_match _ _ _ Hm) as (? & ? & ? & _ & _ & Hst). exact Hst.
  - unfold FixFinal.run. rewrite sub_no_match; [reflexivity|].
    apply (search_needs_start _ RebuildFavoritesSection.marker); [|exact H].
    intros s rest g Hm.
    destruct (fix_final_match _ _ _ Hm) as (? & _ & _ & Hst). exact Hst.
  - unfold RebuildFavoritesSection.run, RebuildFavoritesSection.rebuild.
    assert (Hn : RebuildFavoritesSection.find_start 0 (readlines content) = None).
    { apply find_start_none. intros l Hl.
      destruct (contains RebuildFavoritesSection.marker l) eqn:E; [|reflexivity].
      pose proof (contains_line _ _ _ Hl E) as Hc.
      rewrite concat_readlines in Hc. congruence. }
    now rewrite Hn.
Qed.

Lemma file_without_marker_is_left_alone_witness :
  let content := str "Window {" ++ [nl] ++ str "  for fav in favorites : Text { }"
                 ++ [nl] ++ str "}" ++ [nl] in
  FixFavorites.run content = Outcome Finished (Some content)
  /\ FixFinal.run content = Outcome Finished (Some content)
  /\ RebuildFavoritesSection.run content = Outcome (Exited 1) None.
Proof.
  intros content.
  apply (file_without_marker_is_left_alone content).
  vm_compute. reflexivity.
Defined.

(** ** The pruner on documents of every shape *)

Section PrunerShapes.
Import CleanRecent.

Lemma keeps_inr (folder : json) (b : bool) :
  keeps folder = inr b -> has_path folder.
Proof.
  unfold keeps, getitem, has_path.
  destruct folder as [| | | | | |fields]; try discriminate.
  destruct (lookup path fields) as [[| | | |p| |]|] eqn:El; try discriminate.
  intros _. now exists fields, p.
Qed.

Lemma keeps_malformed (folder : json) :
  ~ has_path folder -> keeps folder = inl (entry_error folder).
Proof.
  unfold keeps, getitem, has_path, entry_error. intros Hn.
  destruct folder as [| | | | | |fields]; try reflexivity.
  destruct (lookup path fields) as [[| | | |p| |]|] eqn:El; try reflexivity.
  exfalso. apply Hn. now exists fields, p.
Qed.

Lemma comprehension_inr (folders kept : list json) :
  comprehension folders = inr kept -> Forall has_path folders.
Proof.
  revert kept. induction folders as [|f fs IH]; intros kept; [constructor|].
  cbn [comprehension].
  destruct (keeps f) as [e|b] eqn:Ef; [discriminate|]. simpl.
  destruct (comprehension fs) as [e|k] eqn:Ec; [discriminate|].
  intros _. constructor; [now apply keeps_inr in Ef | now apply (IH k)].
Qed.

Lemma comprehension_malformed (good : list json) (bad : json) (rest : list json) :
  Forall has_path good -> ~ has_path bad ->
  comprehension (good ++ bad :: rest) = inl (entry_error bad).
Proof.
  intros Hg Hb. induction Hg as [|f fs Hf _ IH]; cbn [app comprehension].
  - now rewrite (keeps_malformed bad Hb).
  - rewrite (keeps_has_path f Hf), IH. reflexivity.
Qed.

Lemma run_list (d : dict) (folders : list json) :
  lookup recent_folders d = Some (JList folders) ->
  run (JDict d) =
  match comprehension folders with
  | inr kept => Outcome Finished (Some (JDict (store recent_folders (JList kept) d)))
  | inl e => Outcome (Raised e) None
  end.
Proof.
  intros Hl. unfold run, clean, getitem. rewrite Hl.
  cbn [bind ret len iter]. destruct (comprehension folders); reflexivity.
Qed.



End PrunerShapes.

(** X14.  With an array in [recent_folders], the pruner reaches its end and
    writes exactly when every entry is a record whose [path] is a string;
    otherwise nothing is written at all, however many well-formed entries
    the array holds. *)
Theorem pruner_writes_iff_all_records
    (d : CleanRecent.dict) (folders : list CleanRecent.json) :
  CleanRecent.lookup CleanRecent.recent_folders d = Some (CleanRecent.JList folders) ->
  (term (CleanRecent.run (CleanRecent.JDict d)) = Finished
     <-> Forall CleanRecent.has_path folders)
  /\ (written (CleanRecent.run (CleanRecent.JDict d)) = None
     <-> ~ Forall CleanRecent.has_path folders).
Proof.
  intros Hl. rewrite (run_list d folders Hl).
  destruct (CleanRecent.comprehension folders) as [e|kept] eqn:Ec; cbn [term written].
  - assert (Hn : ~ Forall CleanRecent.has_path folders).
    { intros Hall. rewrite (comprehension_records folders Hall) in Ec. discriminate. }
    split; split; auto; try discriminate. intros Hall. now destruct Hn.
  - pose proof (comprehension_inr _ _ Ec) as Hall.
    split; split; auto; try discriminate. intros Hn. now destruct Hn.
Qed.

Lemma pruner_writes_iff_all_records_witness :
  let home := CleanRecent.JDict [(CleanRecent.path, CleanRecent.JStr (str "/home/u"))] in
  let d := [(CleanRecent.recent_folders,
             CleanRecent.JList [home; CleanRecent.JStr (str "/tmp")])] in
  (term (CleanRecent.run (CleanRecent.JDict d)) = Finished
     <-> Forall CleanRecent.has_path [home; CleanRecent.JStr (str "/tmp")])
  /\ (written (CleanRecent.run (CleanRecent.JDict d)) = None
     <-> ~ Forall CleanRecent.has_path [home; CleanRecent.JStr (str "/tmp")]).
Proof.
  intros home d.
  apply (pruner_writes_iff_all_records d).
  reflexivity.
Defined.

(** X15.  The first entry of the array that is not a record with a string
    [path] decides the failure: the pruner stops on it with [TypeError] when
    the entry is not an object, [KeyError] when it has no [path], and
    [AttributeError] when its [path] is not a string, and writes nothing. *)
Theorem pruner_stops_at_first_malformed_entry
    (d : CleanRecent.dict) (good : list CleanRecent.json)
    (bad : CleanRecent.json) (rest : list CleanRecent.json) :
  CleanRecent.lookup CleanRecent.recent_folders d
    = Some (CleanRecent.JList (good ++ bad :: rest)) ->
  Forall CleanRecent.has_path good ->
  ~ CleanRecent.has_path bad ->
  CleanRecent.run (CleanRecent.JDict d) = Outcome (Raised (entry_error bad)) None.
Proof.
  intros Hl Hg Hb. rewrite (run_list d _ Hl).
  now rewrite (comprehension_malformed good bad rest Hg Hb).
Qed.

Lemma pruner_stops_at_first_malformed_entry_witness :
  let home := CleanRecent.JDict [(CleanRecent.path, CleanRecent.JStr (str "/home/u"))] in
  let bad := CleanRecent.JDict [(str "name", CleanRecent.JStr (str "u"))] in
  let d := [(CleanRecent.recent_folders,
             CleanRecent.JList [home; bad; CleanRecent.JNull])] in
  CleanRecent.run (CleanRecent.JDict d) = Outcome (Raised KeyError) None.
Proof.
  intros home bad d.
  apply (pruner_stops_at_first_malformed_entry d [home] bad [CleanRecent.JNull]).
  - reflexivity.
  - repeat constructor.
    exists [(CleanRecent.path, CleanRecent.JStr (str "/home/u"))], (str "/home/u").
    split; reflexivity.
  - intros (fields & p & E & Hp). injection E as <-. discriminate Hp.
Defined.



(** X17.  Documents of another shape: a document that is not an object
    stops the pruner with [TypeError], an object without [recent_folders]
    with [KeyError].  A [recent_folders] that is not an array stops it with
    [TypeError], except an empty string or an empty object, which the
    pruner silently replaces by an empty array.  Nothing is written on the
    failures. *)
Theorem pruner_on_other_documents
    (data : CleanRecent.json) (d : CleanRecent.dict) (v : CleanRecent.json) :
  match data with
  | CleanRecent.JDict _ => True
  | _ => CleanRecent.run data = Outcome (Raised TypeError) None
  end
  /\ (CleanRecent.lookup CleanRecent.recent_folders d = None ->
      CleanRecent.run (CleanRecent.JDict d) = Outcome (Raised KeyError) None)
  /\ (CleanRecent.lookup CleanRecent.recent_folders d = Some v ->
      match v with
      | CleanRecent.JList _ => True
      | CleanRecent.JStr [] | CleanRecent.JDict [] =>
          CleanRecent.run (CleanRecent.JDict d)
          = Outcome Finished
              (Some (CleanRecent.JDict
                       (CleanRecent.store CleanRecent.recent_folders
                          (CleanRecent.JList []) d)))
      | _ => CleanRecent.run (CleanRecent.JDict d) = Outcome (Raised TypeError) None
      end).
Proof.
  split; [destruct data; exact I || reflexivity|]. split.
  - intros Hl. unfold CleanRecent.run, CleanRecent.clean, CleanRecent.getitem.
    now rewrite Hl.
  - intros Hl. unfold CleanRecent.run, CleanRecent.clean, CleanRecent.getitem.
    rewrite Hl.
    destruct v as [| | | |s|l|fields]; try reflexivity; try exact I.
    + destruct s; reflexivity.
    + destruct fields as [|[k x] fields]; reflexivity.
Qed.

Lemma pruner_on_other_documents_witness :
  CleanRecent.run (CleanRecent.JList []) = Outcome (Raised TypeError) None
  /\ CleanRecent.run (CleanRecent.JDict [(str "version", CleanRecent.JInt 1)])
     = Outcome (Raised KeyError) None
  /\ CleanRecent.run
       (CleanRecent.JDict [(CleanRecent.recent_folders, CleanRecent.JDict [])])
     = Outcome Finished
         (Some (CleanRecent.JDict [(CleanRecent.recent_folders, CleanRecent.JList [])]))
  /\ CleanRecent.run
       (CleanRecent.JDict [(CleanRecent.recent_folders, CleanRecent.JStr (str "/home"))])
     = Outcome (Raised TypeError) None.
Proof.
  split; [|split; [|split]].
  - exact (proj1 (pruner_on_other_documents (CleanRecent.JList []) [] CleanRecent.JNull)).
  - apply (proj1 (proj2 (pruner_on_other_documents CleanRecent.JNull
             [(str "version", CleanRecent.JInt 1)] CleanRecent.JNull))).
    reflexivity.
  - apply (proj2 (proj2 (pruner_on_other_documents CleanRecent.JNull
             [(CleanRecent.recent_folders, CleanRecent.JDict [])] (CleanRecent.JDict [])))).
    reflexivity.
  - apply (proj2 (proj2 (pruner_on_other_documents CleanRecent.JNull
             [(CleanRecent.recent_folders, CleanRecent.JStr (str "/home"))]
             (CleanRecent.JStr (str "/home"))))).
    reflexivity.
Defined.

(** X18.  Neither brace fixer ever adds or removes an opening brace: the
    file it leaves has as many ['{'] as the file it read. *)
Theorem fixers_keep_opening_braces (content : text) :
  count lbrace (run_on AnalyzeAndFix.run content) = count lbrace content
  /\ count lbrace (run_on FixComplete.run content) = count lbrace content.
Proof.
  split; unfold run_on, file_after.
  - destruct (analyze_cases content) as [[E W] | [[L W] | [L W]]]; rewrite W.
    + reflexivity.
    + rewrite count_app, count_closing_l. lia.
    + destruct (remove_surplus_counts
                  (count rbrace content - count lbrace content) (readlines content))
        as [Ho _].
      now rewrite Ho, count_readlines.
  - destruct (fix_complete_cases content) as [[E W] | [[L W] | [L W]]]; rewrite W.
    + reflexivity.
    + rewrite !count_app, count_closing_l. simpl. lia.
    + destruct (remove_surplus_counts
                  (count rbrace content - count lbrace content) (split nl content))
        as [Ho _].
      rewrite (count_join _ nl) by reflexivity.
      rewrite Ho. now apply count_split.
Qed.

(** X19.  Cutting a text into lines and putting lines together are inverse
    of each other, with [readlines]/[writelines] as with
    [split('\n')]/['\n'.join]: every text comes back from its lines; a line
    list comes back from the text it makes when it is cut as [readlines]
    cuts (complete lines, then possibly a last one without newline), resp.
    when it is not empty and no line holds a newline. *)
Theorem lines_round_trip (s : text) (ls : list text) :
  writelines (readlines s) = s
  /\ join [nl] (split nl s) = s
  /\ (well_cut ls -> readlines (writelines ls) = ls)
  /\ (ls <> [] -> Forall (fun l => count nl l = 0) ls ->
      split nl (join [nl] ls) = ls).
Proof.
  split; [apply concat_readlines|].
  split; [apply join_split|].
  split; [apply readlines_concat | apply split_join].
Qed.

Lemma lines_round_trip_witness :
  let s := str "a {" ++ [nl] ++ [nl] ++ str "}" in
  writelines (readlines s) = s
  /\ join [nl] (split nl s) = s
  /\ readlines (writelines [str "a {" ++ [nl]; [nl]; str "}"])
     = [str "a {" ++ [nl]; [nl]; str "}"]
  /\ split nl (join [nl] [str "a {"; []; str "}"]) = [str "a {"; []; str "}"].
Proof.
  intros s.
  destruct (lines_round_trip s [str "a {" ++ [nl]; [nl]; str "}"]) as (H1 & H2 & H3 & _).
  destruct (lines_round_trip s [str "a {"; []; str "}"]) as (_ & _ & _ & H4).
  split; [exact H1|]. split; [exact H2|]. split.
  - apply H3.
    apply well_cut_cons; [exists (str "a {"); split; reflexivity|].
    apply well_cut_cons; [exists []; split; reflexivity|].
    apply well_cut_last; [discriminate | reflexivity].
  - apply H4; [discriminate | repeat constructor].
Defined.
